(** * Artifact version-control engine: diff, merge, similarity, version store

    A shallow embedding of
    - [lib/artifact-management/version-control] ([generateDiff],
      [mergeContent], [calculateSimilarity]),
    - [lib/db/schema-artifacts] (the tables [ArtifactVersion],
      [ArtifactBranch], [ArtifactChangeLog]) and
    - [lib/db/queries-artifacts] ([createArtifactVersion],
      [restoreArtifactVersion], [createArtifactBranch], [logArtifactChange]),
    followed by the properties of these operations.

    Conventions.  A JavaScript string is modelled as the sequence of its
    characters ([string]); an array as a [list], with an out-of-range read
    [xs[i]] (JavaScript's [undefined]) as [xs !! i = None]; a JavaScript
    number holding a count or an index as [nat], a database [integer] as
    [Z].  The quotient returned by [calculateSimilarity] is kept as the
    exact rational [Q] of which the JavaScript number is the nearest
    double. *)

From Stdlib Require Import String Ascii ZArith QArith Lia DecimalString.
From stdpp Require Import base list strings sorting.

(** ** Text: [String.prototype.split('\n')] and [Array.prototype.join('\n')] *)

Module Text.

Definition newline_char : ascii := ascii_of_nat 10.

(** The one-character string ["\n"]. *)
Definition nl : string := String newline_char EmptyString.

(** [s.split('\n')]: cut at every newline.  The result is never empty: the
    empty string splits into one empty line. *)
Fixpoint split_lines (s : string) : list string :=
  match s with
  | EmptyString => [EmptyString]
  | String c rest =>
      if Ascii.eqb c newline_char then EmptyString :: split_lines rest
      else match split_lines rest with
           | first :: others => String c first :: others
           | [] => [String c EmptyString]
           end
  end.

(** [lines.join('\n')]. *)
Fixpoint join_lines (ls : list string) : string :=
  match ls with
  | [] => EmptyString
  | [l] => l
  | l :: rest => l +:+ nl +:+ join_lines rest
  end.

(** A string that is a single line. *)
Definition single_line (s : string) : Prop := split_lines s = [s].

(** The last line of a string. *)
Definition last_line (s : string) : string :=
  default EmptyString (last (split_lines s)).

(** [k] newline characters. *)
Fixpoint newlines (k : nat) : string :=
  match k with
  | O => EmptyString
  | S k' => String newline_char (newlines k')
  end.

End Text.

Import Text.

(** ** DiffEngine and MergeEngine *)

Module VersionControl.

Record Modification := mkModification {
  line : nat;
  old : string;
  new : string
}.

Record DiffStats := mkDiffStats {
  addedLines : nat;
  deletedLines : nat;
  modifiedLines : nat
}.

Record DiffResult := mkDiffResult {
  additions : list string;
  deletions : list string;
  modifications : list Modification;
  stats : DiffStats
}.

(** The three arrays the loop of [generateDiff] pushes to. *)
Record DiffAcc := mkDiffAcc {
  acc_additions : list string;
  acc_deletions : list string;
  acc_modifications : list Modification
}.

(** One iteration of [for (let i = 0; i < maxLines; i++)] in [generateDiff]. *)
Definition diff_iteration (oldLines newLines : list string)
    (acc : DiffAcc) (i : nat) : DiffAcc :=
  match oldLines !! i, newLines !! i with
  | None, Some newLine =>
      mkDiffAcc (acc_additions acc ++ [newLine]) (acc_deletions acc)
                (acc_modifications acc)
  | Some oldLine, None =>
      mkDiffAcc (acc_additions acc) (acc_deletions acc ++ [oldLine])
                (acc_modifications acc)
  | Some oldLine, Some newLine =>
      if String.eqb oldLine newLine then acc
      else mkDiffAcc (acc_additions acc) (acc_deletions acc)
             (acc_modifications acc ++ [mkModification (i + 1) oldLine newLine])
  | None, None => acc
  end.

Definition generateDiff (oldContent newContent : string) : DiffResult :=
  let oldLines := split_lines oldContent in
  let newLines := split_lines newContent in
  let maxLines := Nat.max (length oldLines) (length newLines) in
  let acc := foldl (diff_iteration oldLines newLines)
                   (mkDiffAcc [] [] []) (seq 0 maxLines) in
  mkDiffResult (acc_additions acc) (acc_deletions acc) (acc_modifications acc)
    (mkDiffStats (length (acc_additions acc)) (length (acc_deletions acc))
                 (length (acc_modifications acc))).

(** The modification a positional comparison reports at index [i]: the two
    lines there, when both sides have one and they differ. *)
Definition modification_at (oldLines newLines : list string) (i : nat)
    : option Modification :=
  match oldLines !! i, newLines !! i with
  | Some oldLine, Some newLine =>
      if String.eqb oldLine newLine then None
      else Some (mkModification (i + 1) oldLine newLine)
  | _, _ => None
  end.

Record MergeConflict := mkMergeConflict {
  conflict_line : nat;
  current : string;
  incoming : string;
  base : option string
}.

Record MergeResult := mkMergeResult {
  success : bool;
  content : option string;
  conflicts : option (list MergeConflict)
}.

(** [line || ''] on a possibly undefined line; the empty string is falsy
    and is replaced by itself. *)
Definition or_empty (l : option string) : string :=
  match l with
  | Some s => s
  | None => EmptyString
  end.

(** [===] on two possibly undefined lines. *)
Definition line_eqb (a b : option string) : bool :=
  match a, b with
  | Some x, Some y => String.eqb x y
  | None, None => true
  | _, _ => false
  end.

Record MergeAcc := mkMergeAcc {
  acc_conflicts : list MergeConflict;
  acc_mergedLines : list string
}.

(** One iteration of the loop of [mergeContent]. *)
Definition merge_iteration (baseLines currentLines incomingLines : list string)
    (acc : MergeAcc) (i : nat) : MergeAcc :=
  let baseLine := baseLines !! i in
  let currentLine := currentLines !! i in
  let incomingLine := incomingLines !! i in
  if line_eqb currentLine incomingLine then
    mkMergeAcc (acc_conflicts acc) (acc_mergedLines acc ++ [or_empty currentLine])
  else if line_eqb currentLine baseLine && negb (line_eqb incomingLine baseLine) then
    mkMergeAcc (acc_conflicts acc) (acc_mergedLines acc ++ [or_empty incomingLine])
  else if line_eqb incomingLine baseLine && negb (line_eqb currentLine baseLine) then
    mkMergeAcc (acc_conflicts acc) (acc_mergedLines acc ++ [or_empty currentLine])
  else
    mkMergeAcc
      (acc_conflicts acc ++
         [mkMergeConflict (i + 1) (or_empty currentLine) (or_empty incomingLine)
                          baseLine])
      (acc_mergedLines acc ++
         ["<<<<<<< current"; or_empty currentLine; "=======";
          or_empty incomingLine; ">>>>>>> incoming"]).

Definition mergeContent (baseContent currentContent incomingContent : string)
    : MergeResult :=
  let baseLines := split_lines baseContent in
  let currentLines := split_lines currentContent in
  let incomingLines := split_lines incomingContent in
  let maxLines :=
    Nat.max (Nat.max (length baseLines) (length currentLines))
            (length incomingLines) in
  let acc := foldl (merge_iteration baseLines currentLines incomingLines)
                   (mkMergeAcc [] []) (seq 0 maxLines) in
  mkMergeResult
    (Nat.eqb (length (acc_conflicts acc)) 0)
    (Some (join_lines (acc_mergedLines acc)))
    (if Nat.ltb 0 (length (acc_conflicts acc)) then Some (acc_conflicts acc)
     else None).

(** The body of [for (let i = 0; i < minLines; i++)] in
    [calculateSimilarity]. *)
Definition similarity_iteration (lines1 lines2 : list string)
    (matchingLines : nat) (i : nat) : nat :=
  if line_eqb (lines1 !! i) (lines2 !! i) then matchingLines + 1
  else matchingLines.

(** [matchingLines / totalLines], as an exact quotient. *)
Definition quotient (n d : nat) : Q := Z.of_nat n # Pos.of_nat d.

Definition calculateSimilarity (content1 content2 : string) : Q :=
  let lines1 := split_lines content1 in
  let lines2 := split_lines content2 in
  let totalLines := Nat.max (length lines1) (length lines2) in
  if Nat.eqb totalLines 0 then 1%Q
  else
    let minLines := Nat.min (length lines1) (length lines2) in
    let matchingLines :=
      foldl (similarity_iteration lines1 lines2) 0 (seq 0 minLines) in
    quotient matchingLines totalLines.

(** The number of line positions at which the two contents have identical
    lines, said directly: walk both line lists side by side. *)
Fixpoint identical_positions (lines1 lines2 : list string) : nat :=
  match lines1, lines2 with
  | l1 :: rest1, l2 :: rest2 =>
      (if String.eqb l1 l2 then 1 else 0) + identical_positions rest1 rest2
  | _, _ => 0
  end.

End VersionControl.

Import VersionControl.

(** ** The tables of [lib/db/schema-artifacts] *)

Module Schema.

(** A [json] column. *)
#[warnings="-register-all"]
Inductive Json :=
| JNull
| JNumber (n : Z)
| JString (s : string)
| JObject (fields : list (string * Json)).

(** Modelled from the spec: the [Document] table, imported from [./schema]
    and not among the sources.  "Artifact -- opaque identity (id) plus
    current title/content pointer"; the queries below read its [id] and
    write its [title] and [content]. *)
Module Document.
Record t := mk {
  id : string;
  title : string;
  content : string
}.
End Document.

Module ArtifactVersion.
Record t := mk {
  id : string;
  artifactId : string;
  version : Z;
  commitHash : string;
  parentVersionId : option string;
  title : string;
  content : string;
  contentHash : string;
  commitMessage : option string;
  authorId : string;
  createdAt : Z;
  isActive : bool;
  metadata : option Json
}.

(** [.set({ isActive: false })] on one row. *)
Definition set_inactive (v : t) : t :=
  mk (id v) (artifactId v) (version v) (commitHash v) (parentVersionId v)
     (title v) (content v) (contentHash v) (commitMessage v) (authorId v)
     (createdAt v) false (metadata v).
End ArtifactVersion.

Module ArtifactBranch.
Record t := mk {
  id : string;
  artifactId : string;
  name : string;
  headVersionId : string;
  isDefault : bool;
  createdAt : Z;
  updatedAt : Z
}.
End ArtifactBranch.

Module Action.
Inductive t := create | update | delete | restore | branch | merge | tag.
End Action.

Module ArtifactChangeLog.
Record t := mk {
  id : string;
  artifactId : string;
  versionId : option string;
  action : Action.t;
  userId : string;
  details : option Json;
  timestamp : Z
}.
End ArtifactChangeLog.

(** The database: the rows of each table, in insertion order.  Of the
    [User] table (also from [./schema]) only the ids matter here. *)
Record Db := mkDb {
  document : list Document.t;
  user : list string;
  artifactVersion : list ArtifactVersion.t;
  artifactBranch : list ArtifactBranch.t;
  artifactChangeLog : list ArtifactChangeLog.t
}.

End Schema.

Import Schema.

(** ** The queries of [lib/db/queries-artifacts] *)

Module Queries.

(** [new ChatSDKError(code, cause)]. *)
Record ChatSDKError := mkChatSDKError {
  errorCode : string;
  cause : string
}.

(** What a [try] block of the queries can throw: the driver's error for a
    refused statement, or a [ChatSDKError]. *)
Inductive Exception :=
| PostgresError
| SDKError (e : ChatSDKError).

(** The outcome of an [async] function: the value its promise resolves to,
    or the exception it rejects with. *)
Inductive Result (A : Type) :=
| Returns (a : A)
| Throws (e : Exception).

Arguments Returns {A} a.
Arguments Throws {A} e.

(** What a call reads from outside the database rows: the JavaScript clock,
    the database clock behind [defaultNow()], and the uuids that
    [defaultRandom()] draws for the rows the call inserts. *)
Record Env := mkEnv {
  Date_now : Z;
  defaultNow : Z;
  versionUuid : string;
  changeLogUuid : string;
  branchUuid : string
}.

(** An [async] function of the queries: run on a database, it leaves a
    database behind and resolves or rejects.  There is no transaction in
    the queries, so what a function wrote before it threw stays written. *)
Definition Async (A : Type) : Type := Db -> Result A * Db.

Definition resolve {A : Type} (a : A) : Async A :=
  fun db => (Returns a, db).

Definition throw {A : Type} (e : Exception) : Async A :=
  fun db => (Throws e, db).

(** [const x = await m; k]: an exception of [m] skips [k]. *)
Definition bind {A B : Type} (m : Async A) (k : A -> Async B) : Async B :=
  fun db =>
    match m db with
    | (Returns a, db1) => k a db1
    | (Throws e, db1) => (Throws e, db1)
    end.

Notation "'await' x <- m ; k" := (bind m (fun x => k))
  (at level 10, x name, m at level 100, k at level 200,
   format "'[v' 'await'  x  <-  m ; '/' k ']'").

(** [try { body } catch (error) { throw new ChatSDKError(code, cause) }]:
    whatever the body throws is replaced. *)
Definition try_catch {A : Type} (body : Async A) (code cause : string)
    : Async A :=
  fun db =>
    match body db with
    | (Returns a, db1) => (Returns a, db1)
    | (Throws _, db1) => (Throws (SDKError (mkChatSDKError code cause)), db1)
    end.

(** The three kinds of statement sent to the database.  A select reads, an
    update rewrites rows, an insert adds a row or is refused by a
    constraint, which the driver reports by throwing. *)
Definition db_select {A : Type} (query : Db -> A) : Async A :=
  fun db => (Returns (query db), db).

Definition db_update (statement : Db -> Db) : Async unit :=
  fun db => (Returns tt, statement db).

Definition db_insert (statement : Db -> option Db) : Async unit :=
  fun db =>
    match statement db with
    | Some db' => (Returns tt, db')
    | None => (Throws PostgresError, db)
    end.

Definition mem (x : string) (xs : list string) : bool :=
  existsb (String.eqb x) xs.

(** A nullable foreign key. *)
Definition mem_opt (x : option string) (xs : list string) : bool :=
  match x with
  | Some y => mem y xs
  | None => true
  end.

(** The range of an [integer] column. *)
Definition int4 (z : Z) : bool :=
  ((-2147483648 <=? z) && (z <=? 2147483647))%Z.

(** A JavaScript integer in a template literal: its decimal digits. *)
Definition decimal (z : Z) : string := NilZero.string_of_int (Z.to_int z).

(** *** Inserts, with the constraints the schema declares

    An insert is refused ([None]) when the row breaks a constraint of the
    table: the primary key, a [unique] column, a [references] column, the
    range of an [integer], the length of a [varchar] (where only spaces
    beyond the length are cut instead).  The two hash columns are
    [varchar(64)] and hold hex SHA-256 digests, which are 64 characters
    long. *)

Definition insert_artifactVersion (row : ArtifactVersion.t) (db : Db)
    : option Db :=
  if negb (mem (ArtifactVersion.id row)
               (map ArtifactVersion.id (artifactVersion db)))
     && mem (ArtifactVersion.artifactId row) (map Document.id (document db))
     && int4 (ArtifactVersion.version row)
     && negb (mem (ArtifactVersion.commitHash row)
                  (map ArtifactVersion.commitHash (artifactVersion db)))
     && mem_opt (ArtifactVersion.parentVersionId row)
                (map ArtifactVersion.id (artifactVersion db))
     && mem (ArtifactVersion.authorId row) (user db)
  then Some (mkDb (document db) (user db) (artifactVersion db ++ [row])
                  (artifactBranch db) (artifactChangeLog db))
  else None.

(** A string of space characters only. *)
Fixpoint only_spaces (s : string) : bool :=
  match s with
  | EmptyString => true
  | String c rest => Ascii.eqb c " " && only_spaces rest
  end.

(** What a [varchar(n)] column stores of a string: the string itself when
    it has at most [n] characters; its first [n] characters when the
    characters beyond them are all spaces; nothing, the insert being
    refused, otherwise. *)
Definition varchar (n : nat) (s : string) : option string :=
  if (String.length s <=? n)%nat then Some s
  else if only_spaces (String.substring n (String.length s - n) s)
  then Some (String.substring 0 n s)
  else None.

(** The [name] column is a [varchar(100)]: the row is stored with what the
    column keeps of its name. *)
Definition insert_artifactBranch (row : ArtifactBranch.t) (db : Db)
    : option Db :=
  match varchar 100 (ArtifactBranch.name row) with
  | Some stored =>
      if negb (mem (ArtifactBranch.id row)
                   (map ArtifactBranch.id (artifactBranch db)))
         && mem (ArtifactBranch.artifactId row)
                (map Document.id (document db))
         && mem (ArtifactBranch.headVersionId row)
                (map ArtifactVersion.id (artifactVersion db))
      then Some (mkDb (document db) (user db) (artifactVersion db)
                      (artifactBranch db
                         ++ [ArtifactBranch.mk
                               (ArtifactBranch.id row)
                               (ArtifactBranch.artifactId row) stored
                               (ArtifactBranch.headVersionId row)
                               (ArtifactBranch.isDefault row)
                               (ArtifactBranch.createdAt row)
                               (ArtifactBranch.updatedAt row)])
                      (artifactChangeLog db))
      else None
  | None => None
  end.

Definition insert_artifactChangeLog (row : ArtifactChangeLog.t) (db : Db)
    : option Db :=
  if negb (mem (ArtifactChangeLog.id row)
               (map ArtifactChangeLog.id (artifactChangeLog db)))
     && mem (ArtifactChangeLog.artifactId row) (map Document.id (document db))
     && mem_opt (ArtifactChangeLog.versionId row)
                (map ArtifactVersion.id (artifactVersion db))
     && mem (ArtifactChangeLog.userId row) (user db)
  then Some (mkDb (document db) (user db) (artifactVersion db)
                  (artifactBranch db) (artifactChangeLog db ++ [row]))
  else None.

(** *** Selects and updates *)

(** [.where(eq(artifactVersion.artifactId, artifactId))]. *)
Definition versions_of (artifactId : string) (db : Db)
    : list ArtifactVersion.t :=
  List.filter (fun v => String.eqb (ArtifactVersion.artifactId v) artifactId)
              (artifactVersion db).

(** The first row of [.orderBy(desc(...)).limit(1)] over a column of
    integers: the greatest one, if there is a row at all. *)
Fixpoint greatest (zs : list Z) : option Z :=
  match zs with
  | [] => None
  | z :: rest =>
      match greatest rest with
      | None => Some z
      | Some m => Some (Z.max z m)
      end
  end.

(** [const [latestVersion] = await db.select({ version }) ...
    .orderBy(desc(artifactVersion.version)).limit(1)]. *)
Definition select_latestVersion (artifactId : string) (db : Db) : option Z :=
  greatest (map ArtifactVersion.version (versions_of artifactId db)).

(** [latestVersion?.version || 0]: zero is falsy and is replaced by zero. *)
Definition version_or_0 (latestVersion : option Z) : Z :=
  match latestVersion with
  | Some v => if (v =? 0)%Z then 0%Z else v
  | None => 0%Z
  end.

(** What [update(artifactVersion).set({ isActive: false })
    .where(and(eq(artifactId, ...), eq(isActive, true)))] does to one row. *)
Definition deactivated (artifactId : string) (v : ArtifactVersion.t)
    : ArtifactVersion.t :=
  if String.eqb (ArtifactVersion.artifactId v) artifactId
     && Bool.eqb (ArtifactVersion.isActive v) true
  then ArtifactVersion.set_inactive v else v.

(** The update, on the table. *)
Definition deactivate_active (artifactId : string) (db : Db) : Db :=
  mkDb (document db) (user db)
       (map (deactivated artifactId) (artifactVersion db))
       (artifactBranch db) (artifactChangeLog db).

(** [update(document).set({ title, content }).where(eq(document.id, ...))]. *)
Definition update_document (artifactId title content : string) (db : Db) : Db :=
  mkDb (map (fun d =>
               if String.eqb (Document.id d) artifactId
               then Document.mk (Document.id d) title content else d)
            (document db))
       (user db) (artifactVersion db) (artifactBranch db)
       (artifactChangeLog db).

(** [const [versionToRestore] = await db.select().from(artifactVersion)
    .where(and(eq(id, versionId), eq(artifactId, artifactId)))]. *)
Definition select_version (versionId artifactId : string) (db : Db)
    : option ArtifactVersion.t :=
  head (List.filter
          (fun v => String.eqb (ArtifactVersion.id v) versionId
                    && String.eqb (ArtifactVersion.artifactId v) artifactId)
          (artifactVersion db)).

Section WithHash.

(** [createHash('sha256').update(data).digest('hex')]. *)
Variable sha256_hex : string -> string.

Definition generateContentHash (content : string) : string :=
  sha256_hex content.

Definition generateCommitHash (env : Env) (artifactId : string) (version : Z)
    (content : string) : string :=
  sha256_hex (artifactId +:+ ":" +:+ decimal version +:+ ":" +:+ content
              +:+ ":" +:+ decimal (Date_now env)).

Definition logArtifactChange (env : Env) (artifactId : string)
    (versionId : option string) (action : Action.t) (userId : string)
    (details : option Json) : Async unit :=
  try_catch
    (db_insert (insert_artifactChangeLog
               (ArtifactChangeLog.mk (changeLogUuid env) artifactId versionId
                                     action userId details (defaultNow env))))
    "bad_request:database" "Failed to log artifact change".

(** The [details] object logged by [createArtifactVersion]; an undefined
    [commitMessage] leaves no field in the stored JSON. *)
Definition version_details (commitMessage : option string) (nextVersion : Z)
    : Json :=
  JObject (match commitMessage with
           | Some m => [("commitMessage", JString m)]
           | None => []
           end ++ [("version", JNumber nextVersion)]).

Definition createArtifactVersion (env : Env) (artifactId title content : string)
    (commitMessage : option string) (authorId : string)
    (parentVersionId : option string) : Async ArtifactVersion.t :=
  try_catch
    (await latestVersion <- db_select (select_latestVersion artifactId);
     let nextVersion := (version_or_0 latestVersion + 1)%Z in
     let contentHash := generateContentHash content in
     let commitHash := generateCommitHash env artifactId nextVersion content in
     await _ <- db_update (deactivate_active artifactId);
     let newVersion :=
       ArtifactVersion.mk (versionUuid env) artifactId nextVersion commitHash
         parentVersionId title content contentHash commitMessage authorId
         (defaultNow env) true None in
     await _ <- db_insert (insert_artifactVersion newVersion);
     await _ <- db_update (update_document artifactId title content);
     await _ <- logArtifactChange env artifactId
                  (Some (ArtifactVersion.id newVersion)) Action.update authorId
                  (Some (version_details commitMessage nextVersion));
     resolve newVersion)
    "bad_request:database" "Failed to create artifact version".

Definition restoreArtifactVersion (env : Env)
    (artifactId versionId userId : string) : Async ArtifactVersion.t :=
  try_catch
    (await versionToRestore <- db_select (select_version versionId artifactId);
     match versionToRestore with
     | None =>
         throw (SDKError (mkChatSDKError "not_found:database"
                                         "Version not found"))
     | Some versionToRestore =>
         createArtifactVersion env artifactId
           (ArtifactVersion.title versionToRestore)
           (ArtifactVersion.content versionToRestore)
           (Some ("Restored from version "
                  +:+ decimal (ArtifactVersion.version versionToRestore)))
           userId None
     end)
    "bad_request:database" "Failed to restore artifact version".

(** A call of [createArtifactVersion] on a given artifact: what the
    environment answers during the call, and the arguments besides
    [artifactId]. *)
Record CreateCall := mkCreateCall {
  call_env : Env;
  call_title : string;
  call_content : string;
  call_commitMessage : option string;
  call_authorId : string;
  call_parentVersionId : option string
}.

(** Successive calls of [createArtifactVersion] on one artifact, each on the
    database the previous one left: the versions they return, when every
    call returns. *)
Fixpoint create_versions (artifactId : string) (calls : list CreateCall)
    (db : Db) : option (list ArtifactVersion.t * Db) :=
  match calls with
  | [] => Some ([], db)
  | c :: rest =>
      match createArtifactVersion (call_env c) artifactId (call_title c)
              (call_content c) (call_commitMessage c) (call_authorId c)
              (call_parentVersionId c) db with
      | (Returns v, db1) =>
          match create_versions artifactId rest db1 with
          | Some (vs, db') => Some (v :: vs, db')
          | None => None
          end
      | (Throws _, _) => None
      end
  end.

End WithHash.

Definition createArtifactBranch (env : Env)
    (artifactId name fromVersionId : string) : Async unit :=
  try_catch
    (db_insert (insert_artifactBranch
               (ArtifactBranch.mk (branchUuid env) artifactId name
                                  fromVersionId false (defaultNow env)
                                  (defaultNow env))))
    "bad_request:database" "Failed to create artifact branch".

(** The number a call of [createArtifactVersion] on this database gives to
    the new version: [(latestVersion?.version || 0) + 1]. *)
Definition nextVersion (artifactId : string) (db : Db) : Z :=
  (version_or_0 (select_latestVersion artifactId db) + 1)%Z.

(** The versions of an artifact that are marked active. *)
Definition active_versions (artifactId : string) (db : Db)
    : list ArtifactVersion.t :=
  List.filter ArtifactVersion.isActive (versions_of artifactId db).

(** [n] is the greatest of the [existing] numbers plus one, counting from 1
    when there is none. *)
Definition succ_of_greatest (n : Z) (existing : list Z) : Prop :=
  (existing = [] /\ n = 1%Z)
  \/ ((n - 1)%Z ∈ existing /\ forall m : Z, m ∈ existing -> (m <= n - 1)%Z).


End Queries.

Import Queries.

(** ** A small database for the examples *)

Module Scenario.

(** A stand-in for SHA-256 in the examples: it separates the strings that
    occur there. *)
Definition plain (s : string) : string := s.

Definition env_at (now : Z) (tag : string) : Env :=
  mkEnv now now ("version-" +:+ tag) ("log-" +:+ tag) ("branch-" +:+ tag).

(** One artifact and one user, no version yet. *)
Definition fresh_db : Db :=
  mkDb [Document.mk "doc" "Untitled" ""] ["alice"] [] [] [].

(** [createVersion(content = "A")], then [createVersion(content = "B")]. *)
Definition two_calls : list CreateCall :=
  [mkCreateCall (env_at 1000 "1") "Notes" "A" (Some "first") "alice" None;
   mkCreateCall (env_at 2000 "2") "Notes" "B" None "alice" None].

(** The database after the two calls. *)
Definition two_versions_db : Db := Eval vm_compute in
    match create_versions plain "doc" two_calls fresh_db with
    | Some (_, db) => db
    | None => fresh_db
    end.

(** The first of the two versions, as it is stored afterwards. *)
Definition first_version : ArtifactVersion.t :=
  ArtifactVersion.mk "version-1" "doc" 1 "doc:1:A:1000" None "Notes" "A" "A"
                     (Some "first") "alice" 1000 false None.


End Scenario.

(** ** More of [lib/artifact-management/version-control] *)

Module VersionControlMore.

(** A modification read in the other direction. *)
Definition swap_modification (m : Modification) : Modification :=
  mkModification (line m) (new m) (old m).

(** The conflict the loop of [mergeContent] records at index [i], if any. *)
Definition conflict_at (baseLines currentLines incomingLines : list string)
    (i : nat) : option MergeConflict :=
  let baseLine := baseLines !! i in
  let currentLine := currentLines !! i in
  let incomingLine := incomingLines !! i in
  if line_eqb currentLine incomingLine then None
  else if line_eqb currentLine baseLine && negb (line_eqb incomingLine baseLine)
  then None
  else if line_eqb incomingLine baseLine && negb (line_eqb currentLine baseLine)
  then None
  else Some (mkMergeConflict (i + 1) (or_empty currentLine)
                             (or_empty incomingLine) baseLine).

(** The lines the loop of [mergeContent] pushes at index [i]. *)
Definition merged_at (baseLines currentLines incomingLines : list string)
    (i : nat) : list string :=
  let baseLine := baseLines !! i in
  let currentLine := currentLines !! i in
  let incomingLine := incomingLines !! i in
  if line_eqb currentLine incomingLine then [or_empty currentLine]
  else if line_eqb currentLine baseLine && negb (line_eqb incomingLine baseLine)
  then [or_empty incomingLine]
  else if line_eqb incomingLine baseLine && negb (line_eqb currentLine baseLine)
  then [or_empty currentLine]
  else ["<<<<<<< current"; or_empty currentLine; "=======";
        or_empty incomingLine; ">>>>>>> incoming"].

(** A conflict with the two sides exchanged. *)
Definition swap_conflict (k : MergeConflict) : MergeConflict :=
  mkMergeConflict (conflict_line k) (incoming k) (current k) (base k).

(** The conflicts of a merge result, none when the field is undefined. *)
Definition conflict_list (r : MergeResult) : list MergeConflict :=
  default [] (conflicts r).

End VersionControlMore.

Import VersionControlMore.

(** ** Unified diffs and patches *)

Module Patches.

(** A JavaScript count in a template literal. *)
Definition number (n : nat) : string := NilZero.string_of_uint (Nat.to_uint n).

(** [`${line}`] of a possibly undefined line. *)
Definition interpolate (l : option string) : string :=
  match l with
  | Some s => s
  | None => "undefined"
  end.

(** The array [lines] of [generateUnifiedDiff] and its two counters. *)
Record HunkAcc := mkHunkAcc {
  hunk_lines : list string;
  oldLineNum : nat;
  newLineNum : nat
}.

(** The body of [for (const mod of diff.modifications)]. *)
Definition push_modification (oldLines newLines : list string) (acc : HunkAcc)
    (modification : Modification) : HunkAcc :=
  mkHunkAcc
    (hunk_lines acc ++
       ["@@ -" +:+ number (oldLineNum acc) +:+ ",1 +"
          +:+ number (newLineNum acc) +:+ ",1 @@";
        "-" +:+ interpolate (oldLines !! (line modification - 1));
        "+" +:+ interpolate (newLines !! (line modification - 1))])
    (oldLineNum acc + 1) (newLineNum acc + 1).

(** The body of [for (const addition of diff.additions)]. *)
Definition push_addition (acc : HunkAcc) (addition : string) : HunkAcc :=
  mkHunkAcc
    (hunk_lines acc ++
       ["@@ -0,0 +" +:+ number (newLineNum acc) +:+ ",1 @@";
        "+" +:+ addition])
    (oldLineNum acc) (newLineNum acc + 1).

(** The body of [for (const deletion of diff.deletions)]. *)
Definition push_deletion (acc : HunkAcc) (deletion : string) : HunkAcc :=
  mkHunkAcc
    (hunk_lines acc ++
       ["@@ -" +:+ number (oldLineNum acc) +:+ ",1 +0,0 @@";
        "-" +:+ deletion])
    (oldLineNum acc + 1) (newLineNum acc).

(** The array [lines] at the end of [generateUnifiedDiff]; an omitted label
    takes its default. *)
Definition unified_diff_lines (oldContent newContent : string)
    (oldLabel newLabel : option string) : list string :=
  let oldLabel := default "a/file" oldLabel in
  let newLabel := default "b/file" newLabel in
  let diff := generateDiff oldContent newContent in
  let lines := ["--- " +:+ oldLabel; "+++ " +:+ newLabel] in
  let oldLines := split_lines oldContent in
  let newLines := split_lines newContent in
  let acc := mkHunkAcc lines 1 1 in
  let acc := foldl (push_modification oldLines newLines) acc
                   (modifications diff) in
  let acc := foldl push_addition acc (additions diff) in
  let acc := foldl push_deletion acc (deletions diff) in
  hunk_lines acc.

Definition generateUnifiedDiff (oldContent newContent : string)
    (oldLabel newLabel : option string) : string :=
  join_lines (unified_diff_lines oldContent newContent oldLabel newLabel).

Definition createPatch (oldContent newContent : string) : string :=
  generateUnifiedDiff oldContent newContent None None.

(** [s.startsWith(prefix)]. *)
Definition startsWith (s prefix : string) : bool := String.prefix prefix s.

(** [s.substring(1)]. *)
Definition substring_1 (s : string) : string :=
  match s with
  | EmptyString => EmptyString
  | String _ rest => rest
  end.

(** [lines.indexOf(x)]: the first index holding [x], [None] for -1. *)
Fixpoint indexOf (x : string) (lines : list string) : option nat :=
  match lines with
  | [] => None
  | l :: rest =>
      if String.eqb l x then Some 0
      else match indexOf x rest with
           | Some i => Some (S i)
           | None => None
           end
  end.

(** [lines.indexOf(x, fromIndex)]. *)
Definition indexOf_from (x : string) (fromIndex : nat) (lines : list string)
    : option nat :=
  match indexOf x (drop fromIndex lines) with
  | Some i => Some (fromIndex + i)
  | None => None
  end.

(** [lines.splice(index, 1)]. *)
Definition splice_out (index : nat) (lines : list string) : list string :=
  take index lines ++ drop (S index) lines.

(** [lines.splice(index, 0, x)]; an index beyond the end inserts at the
    end. *)
Definition splice_in (index : nat) (x : string) (lines : list string)
    : list string :=
  take index lines ++ x :: drop index lines.

(** The array [lines] of [applyPatch] and its cursor. *)
Record PatchAcc := mkPatchAcc {
  patched : list string;
  currentLine : nat
}.

(** The body of [for (const patchLine of patchLines)]. *)
Definition patch_iteration (acc : PatchAcc) (patchLine : string) : PatchAcc :=
  if startsWith patchLine "-" then
    let lineToRemove := substring_1 patchLine in
    match indexOf_from lineToRemove (currentLine acc) (patched acc) with
    | Some index => mkPatchAcc (splice_out index (patched acc)) (currentLine acc)
    | None => acc
    end
  else if startsWith patchLine "+" then
    let lineToAdd := substring_1 patchLine in
    mkPatchAcc (splice_in (currentLine acc) lineToAdd (patched acc))
               (currentLine acc + 1)
  else if negb (startsWith patchLine "@")
          && negb (startsWith patchLine "---")
          && negb (startsWith patchLine "+++") then
    mkPatchAcc (patched acc) (currentLine acc + 1)
  else acc.

(** The array [lines] at the end of [applyPatch]. *)
Definition patched_lines (content patch : string) : list string :=
  patched (foldl patch_iteration (mkPatchAcc (split_lines content) 0)
                 (split_lines patch)).

Definition applyPatch (content patch : string) : string :=
  join_lines (patched_lines content patch).

(** The hunk [generateUnifiedDiff] writes for the [k]-th modification,
    counting from 0. *)
Definition modification_hunk (k : nat) (m : Modification) : list string :=
  ["@@ -" +:+ number (k + 1) +:+ ",1 +" +:+ number (k + 1) +:+ ",1 @@";
   "-" +:+ old m; "+" +:+ new m].

(** The hunk for the [k]-th addition, after [done] modifications. *)
Definition addition_hunk (done k : nat) (addition : string) : list string :=
  ["@@ -0,0 +" +:+ number (done + k + 1) +:+ ",1 @@"; "+" +:+ addition].

(** The hunk for the [k]-th deletion, after [done] modifications. *)
Definition deletion_hunk (done k : nat) (deletion : string) : list string :=
  ["@@ -" +:+ number (done + k + 1) +:+ ",1 +0,0 @@"; "-" +:+ deletion].

End Patches.

Import Patches.

(** ** Content signatures *)

Module Signatures.

(** The characters [trim] strips, among those with a code below 256: tab,
    line feed, vertical tab, form feed, carriage return, space and the
    no-break space. *)
Definition is_whitespace (c : ascii) : bool :=
  let code := nat_of_ascii c in
  ((9 <=? code) && (code <=? 13)) || (code =? 32) || (code =? 160).

Fixpoint trim_start (s : string) : string :=
  match s with
  | EmptyString => EmptyString
  | String c rest => if is_whitespace c then trim_start rest else s
  end.

Fixpoint trim_end (s : string) : string :=
  match s with
  | EmptyString => EmptyString
  | String c rest =>
      match trim_end rest with
      | EmptyString =>
          if is_whitespace c then EmptyString else String c EmptyString
      | kept => String c kept
      end
  end.

(** [line.trim()]. *)
Definition trim (s : string) : string := trim_end (trim_start s).

(** A string of whitespace only. *)
Fixpoint whitespace_only (s : string) : bool :=
  match s with
  | EmptyString => true
  | String c rest => is_whitespace c && whitespace_only rest
  end.

(** [.filter(line => line.length > 0)] over [.map(line => line.trim())]. *)
Definition significant_lines (content : string) : list string :=
  List.filter (fun line => (0 <? String.length line)%nat)
              (map trim (split_lines content)).

(** The constant [normalized] of [generateContentSignature]. *)
Definition normalized (content : string) : string :=
  join_lines (significant_lines content).

Section WithHash.

(** [createHash('sha256').update(data).digest('hex')]. *)
Variable sha256_hex : string -> string.

Definition generateContentSignature (content : string) : string :=
  sha256_hex (normalized content).

Definition hasSignificantChanges (oldContent newContent : string) : bool :=
  let oldSignature := generateContentSignature oldContent in
  let newSignature := generateContentSignature newContent in
  negb (String.eqb oldSignature newSignature).

End WithHash.

End Signatures.

Import Signatures.

(** ** The reading queries of [lib/db/queries-artifacts] *)

Module Reads.

(** [const result = await db.select().from(artifactVersion)
    .where(eq(artifactVersion.id, versionId)).limit(1);
    return result[0] || null]. *)
Definition getArtifactVersionById (versionId : string)
    : Async (option ArtifactVersion.t) :=
  try_catch
    (await result <-
       db_select (fun db =>
                    take 1 (List.filter
                              (fun v => String.eqb (ArtifactVersion.id v)
                                                   versionId)
                              (artifactVersion db)));
     resolve (head result))
    "bad_request:database" "Failed to get artifact version by ID".

(** The columns [{ id: user.id, email: user.email }] of a joined user. *)
Record Author := mkAuthor {
  author_id : string;
  author_email : string
}.

(** [desc(artifactVersion.version)] as an order on rows: the row with the
    greater number comes first. *)
Definition version_desc {B : Type} (x y : ArtifactVersion.t * B) : Prop :=
  (ArtifactVersion.version (fst y) <= ArtifactVersion.version (fst x))%Z.

Global Instance version_desc_dec {B : Type} (x y : ArtifactVersion.t * B) :
  Decision (version_desc x y).
Proof. unfold version_desc. apply _. Defined.

Section WithUsers.

(** The [email] column of the [User] table, a table that is not among the
    sources: the email of the row with a given id. *)
Variable user_email : string -> string.

(** [.innerJoin(user, eq(column, user.id))] from one row: the users whose id
    the column holds. *)
Definition joined_users (userId : string) (db : Db) : list Author :=
  map (fun u => mkAuthor u (user_email u))
      (List.filter (fun u => String.eqb userId u) (user db)).

(** [select({ version, author }).from(artifactVersion).innerJoin(user, ...)
    .where(eq(artifactVersion.artifactId, artifactId))
    .orderBy(desc(artifactVersion.version))]. *)
Definition getArtifactVersionHistory (artifactId : string)
    : Async (list (ArtifactVersion.t * Author)) :=
  try_catch
    (db_select
       (fun db =>
          merge_sort version_desc
            (flat_map (fun v => map (fun author => (v, author))
                                    (joined_users (ArtifactVersion.authorId v)
                                                  db))
                      (versions_of artifactId db))))
    "bad_request:database" "Failed to get artifact version history".

(** A row of [getArtifactWithCurrentVersion]; the two left joins leave
    [null] where nothing matches. *)
Record ArtifactWithVersion := mkArtifactWithVersion {
  artifact : Document.t;
  currentVersion : option ArtifactVersion.t;
  author : option Author
}.

(** [.leftJoin(user, eq(artifactVersion.authorId, user.id))] from one
    joined version. *)
Definition left_join_author (d : Document.t) (v : ArtifactVersion.t)
    (db : Db) : list ArtifactWithVersion :=
  match joined_users (ArtifactVersion.authorId v) db with
  | [] => [mkArtifactWithVersion d (Some v) None]
  | authors => map (fun a => mkArtifactWithVersion d (Some v) (Some a)) authors
  end.

(** [.leftJoin(artifactVersion, and(eq(artifactId, document.id),
    eq(isActive, true)))] from one document. *)
Definition left_join_active (d : Document.t) (db : Db)
    : list ArtifactWithVersion :=
  match active_versions (Document.id d) db with
  | [] => [mkArtifactWithVersion d None None]
  | versions => flat_map (fun v => left_join_author d v db) versions
  end.

(** [const [result] = await db.select(...).from(document)...
    .where(eq(document.id, artifactId)); return result]. *)
Definition getArtifactWithCurrentVersion (artifactId : string)
    : Async (option ArtifactWithVersion) :=
  try_catch
    (await rows <-
       db_select (fun db =>
                    flat_map (fun d => left_join_active d db)
                             (List.filter
                                (fun d => String.eqb (Document.id d) artifactId)
                                (document db)));
     resolve (head rows))
    "bad_request:database" "Failed to get artifact with current version".

End WithUsers.

(** [desc(artifactBranch.updatedAt)] as an order on rows: the row updated
    last comes first. *)
Definition updated_desc {B : Type} (x y : ArtifactBranch.t * B) : Prop :=
  (ArtifactBranch.updatedAt (fst y) <= ArtifactBranch.updatedAt (fst x))%Z.

Global Instance updated_desc_dec {B : Type} (x y : ArtifactBranch.t * B) :
  Decision (updated_desc x y).
Proof. unfold updated_desc. apply _. Defined.

(** [.innerJoin(artifactVersion, eq(artifactBranch.headVersionId,
    artifactVersion.id))] from one branch. *)
Definition joined_heads (b : ArtifactBranch.t) (db : Db)
    : list ArtifactVersion.t :=
  List.filter (fun v => String.eqb (ArtifactBranch.headVersionId b)
                                   (ArtifactVersion.id v))
              (artifactVersion db).

(** [select({ branch, headVersion }).from(artifactBranch).innerJoin(...)
    .where(eq(artifactBranch.artifactId, artifactId))
    .orderBy(desc(artifactBranch.updatedAt))]. *)
Definition getArtifactBranches (artifactId : string)
    : Async (list (ArtifactBranch.t * ArtifactVersion.t)) :=
  try_catch
    (db_select
       (fun db =>
          merge_sort updated_desc
            (flat_map (fun b => map (fun v => (b, v)) (joined_heads b db))
                      (List.filter
                         (fun b => String.eqb (ArtifactBranch.artifactId b)
                                              artifactId)
                         (artifactBranch db)))))
    "bad_request:database" "Failed to get artifact branches".

(** Every artifact has at most one active version. *)
Definition at_most_one_active (db : Db) : Prop :=
  forall a : string, length (active_versions a db) <= 1.

(** No artifact has two versions with the same number. *)
Definition numbers_distinct (db : Db) : Prop :=
  forall a : string, NoDup (map ArtifactVersion.version (versions_of a db)).

End Reads.

Import Reads.

(** ** More of the example database *)

Module MoreScenario.

(** A third call, [createVersion(content = "C")], on the database with two
    versions, and the version it returns. *)
Definition third_version : ArtifactVersion.t :=
  ArtifactVersion.mk "version-3" "doc" 3 "doc:3:C:3000" None "Notes" "C" "C"
                     (Some "third") "alice" 3000 true None.

Definition three_versions_db : Db := Eval vm_compute in
    snd (createArtifactVersion Scenario.plain (Scenario.env_at 3000 "3") "doc"
           "Notes" "C" (Some "third") "alice" None Scenario.two_versions_db).

(** The database with two versions of [doc] and a second artifact that has
    no version. *)
Definition two_artifacts_db : Db :=
  mkDb (document Scenario.two_versions_db ++ [Document.mk "other" "Other" ""])
       (user Scenario.two_versions_db)
       (artifactVersion Scenario.two_versions_db) []
       (artifactChangeLog Scenario.two_versions_db).

(** A branch name of 100 characters. *)
Definition long_name : string :=
  string_of_list_ascii (repeat "a"%char 100).

(** The email column of the example users. *)
Definition email_of (userId : string) : string := userId +:+ "@example.org".

End MoreScenario.
(** * Properties *)

(** ** The embedding on small inputs *)

Example split_lines_of_empty : split_lines "" = [""].
Proof. reflexivity. Qed.

Example split_lines_trailing_newline :
  split_lines ("a" +:+ nl +:+ "b" +:+ nl) = ["a"; "b"; ""].
Proof. reflexivity. Qed.

Example join_lines_three :
  join_lines ["a"; ""; "b"] = "a" +:+ nl +:+ nl +:+ "b".
Proof. reflexivity. Qed.

Example decimal_digits :
  decimal 0 = "0" /\ decimal 12 = "12" /\ decimal (-5) = "-5".
Proof. repeat split. Qed.

(** Both sides made the same edit. *)
Example mergeContent_convergent :
  mergeContent "x" "y" "y" = mkMergeResult true (Some "y") None.
Proof. reflexivity. Qed.

(** The sides made different edits: a conflict at line 1, marked in the
    content. *)
Example mergeContent_divergent :
  mergeContent "x" "y" "z"
  = mkMergeResult false
      (Some ("<<<<<<< current" +:+ nl +:+ "y" +:+ nl +:+ "=======" +:+ nl
             +:+ "z" +:+ nl +:+ ">>>>>>> incoming"))
      (Some [mkMergeConflict 1 "y" "z" (Some "x")]).
Proof. reflexivity. Qed.

Example calculateSimilarity_one_line_of_three :
  calculateSimilarity ("a" +:+ nl +:+ "b")
                      ("a" +:+ nl +:+ "c" +:+ nl +:+ "d") = (1 # 3)%Q.
Proof. reflexivity. Qed.

(** A version that is not there: the error thrown inside the [try] block is
    replaced by the one of the [catch] block, and nothing is written. *)
Example restoreArtifactVersion_unknown_version :
  restoreArtifactVersion Scenario.plain (Scenario.env_at 3000 "3") "doc"
                         "version-9" "alice" Scenario.two_versions_db
  = (Throws (SDKError (mkChatSDKError "bad_request:database"
                                      "Failed to restore artifact version")),
     Scenario.two_versions_db).
Proof. reflexivity. Qed.

(** An author who is no user: the insert is refused after the update has
    run, and the artifact is left without an active version. *)
Example createArtifactVersion_unknown_author :
  let outcome :=
    createArtifactVersion Scenario.plain (Scenario.env_at 3000 "3") "doc"
                          "Notes" "C" None "mallory" None
                          Scenario.two_versions_db in
  fst outcome
  = Throws (SDKError (mkChatSDKError "bad_request:database"
                                     "Failed to create artifact version"))
  /\ active_versions "doc" Scenario.two_versions_db <> []
  /\ active_versions "doc" (snd outcome) = [].
Proof. repeat split. discriminate. Qed.

(** ** Lines of a string *)

Section TextFacts.

Lemma string_app_cons (c : ascii) (s1 s2 : string) :
  String c s1 +:+ s2 = String c (s1 +:+ s2).
Proof. reflexivity. Qed.

Lemma string_app_assoc (s1 s2 s3 : string) :
  (s1 +:+ s2) +:+ s3 = s1 +:+ (s2 +:+ s3).
Proof.
  induction s1 as [|c rest IH]; [done|].
  by rewrite !string_app_cons, IH.
Qed.

Lemma string_app_empty_r (s : string) : s +:+ EmptyString = s.
Proof.
  induction s as [|c rest IH]; [done|].
  by rewrite string_app_cons, IH.
Qed.

Lemma split_lines_not_nil (s : string) : split_lines s <> [].
Proof.
  destruct s as [|c rest]; simpl; [done|].
  destruct (Ascii.eqb c newline_char); [done|].
  destruct (split_lines rest); done.
Qed.

Lemma split_lines_length (s : string) : 1 <= length (split_lines s).
Proof.
  pose proof (split_lines_not_nil s) as H.
  destruct (split_lines s); [done | simpl; lia].
Qed.

Lemma split_lines_newline (rest : string) :
  split_lines (String newline_char rest) = EmptyString :: split_lines rest.
Proof. reflexivity. Qed.

Lemma split_lines_other (c : ascii) (rest first : string) (others : list string) :
  Ascii.eqb c newline_char = false ->
  split_lines rest = first :: others ->
  split_lines (String c rest) = String c first :: others.
Proof. intros Hc Hrest. simpl. by rewrite Hc, Hrest. Qed.

Lemma join_lines_cons (l first : string) (others : list string) :
  join_lines (l :: first :: others) = l +:+ nl +:+ join_lines (first :: others).
Proof. reflexivity. Qed.

(** Joining the lines of a string gives the string back. *)
Lemma join_split_lines (s : string) : join_lines (split_lines s) = s.
Proof.
  induction s as [|c rest IH]; [done|].
  destruct (Ascii.eqb c newline_char) eqn:Hc.
  - apply Ascii.eqb_eq in Hc. subst c. rewrite split_lines_newline.
    destruct (split_lines rest) as [|first others] eqn:Hrest.
    + by destruct (split_lines_not_nil rest).
    + rewrite join_lines_cons, IH. reflexivity.
  - destruct (split_lines rest) as [|first others] eqn:Hrest.
    + by destruct (split_lines_not_nil rest).
    + rewrite (split_lines_other c rest first others Hc Hrest).
      rewrite <- IH. by destruct others.
Qed.

(** Lines on both sides of a newline are split independently. *)
Lemma split_lines_app_nl (s1 s2 : string) :
  split_lines (s1 +:+ nl +:+ s2) = split_lines s1 ++ split_lines s2.
Proof.
  induction s1 as [|c rest IH]; [done|].
  change (String c rest +:+ nl +:+ s2) with (String c (rest +:+ nl +:+ s2)).
  destruct (Ascii.eqb c newline_char) eqn:Hc.
  - apply Ascii.eqb_eq in Hc. subst c.
    by rewrite !split_lines_newline, IH.
  - destruct (split_lines rest) as [|first others] eqn:Hrest.
    + by destruct (split_lines_not_nil rest).
    + rewrite (split_lines_other c rest first others Hc Hrest).
      by rewrite (split_lines_other c _ first (others ++ split_lines s2) Hc).
Qed.

Lemma join_lines_snoc_empty (ls : list string) :
  ls <> [] -> join_lines (ls ++ [EmptyString]) = join_lines ls +:+ nl.
Proof.
  induction ls as [|l rest IH]; [done|]. intros _.
  destruct rest as [|first others].
  - simpl. f_equal.
  - change ((l :: first :: others) ++ [EmptyString])
      with (l :: (first :: others) ++ [EmptyString]).
    simpl app. rewrite !join_lines_cons.
    change (first :: others ++ [EmptyString])
      with ((first :: others) ++ [EmptyString]).
    rewrite IH by done.
    by rewrite !string_app_assoc.
Qed.

End TextFacts.

(** ** The loop of [generateDiff] *)

Section DiffFacts.

Variables oldLines newLines : list string.

(** After [k] iterations the loop has pushed the lines of each side that
    lie beyond the other side's length, and the differing pairs, all among
    the first [k] indices. *)
Lemma diff_loop_invariant (k : nat) :
  foldl (diff_iteration oldLines newLines) (mkDiffAcc [] [] []) (seq 0 k)
  = mkDiffAcc (drop (length oldLines) (take k newLines))
              (drop (length newLines) (take k oldLines))
              (omap (modification_at oldLines newLines) (seq 0 k)).
Proof.
  induction k as [|k IH].
  - by rewrite !take_0, !drop_nil.
  - rewrite seq_S, foldl_app, IH, omap_app. simpl.
    unfold diff_iteration, modification_at. simpl.
    destruct (oldLines !! k) as [oldLine|] eqn:Hold;
      destruct (newLines !! k) as [newLine|] eqn:Hnew.
    + pose proof (lookup_lt_Some _ _ _ Hold) as Hlo.
      pose proof (lookup_lt_Some _ _ _ Hnew) as Hln.
      rewrite (drop_ge (take k newLines)) by (rewrite length_take; lia).
      rewrite (drop_ge (take k oldLines)) by (rewrite length_take; lia).
      rewrite (drop_ge (take (S k) newLines)) by (rewrite length_take; lia).
      rewrite (drop_ge (take (S k) oldLines)) by (rewrite length_take; lia).
      destruct (String.eqb oldLine newLine); simpl; [by rewrite app_nil_r | done].
    + pose proof (lookup_lt_Some _ _ _ Hold) as Hlo.
      apply lookup_ge_None in Hnew.
      rewrite (take_S_r _ _ _ Hold).
      rewrite drop_app_le by (rewrite length_take; lia).
      rewrite !(take_ge newLines) by lia. simpl.
      by rewrite app_nil_r.
    + pose proof (lookup_lt_Some _ _ _ Hnew) as Hln.
      apply lookup_ge_None in Hold.
      rewrite (take_S_r _ _ _ Hnew).
      rewrite drop_app_le by (rewrite length_take; lia).
      rewrite !(take_ge oldLines) by lia. simpl.
      by rewrite app_nil_r.
    + apply lookup_ge_None in Hold. apply lookup_ge_None in Hnew.
      rewrite !(take_ge oldLines), !(take_ge newLines) by lia.
      by rewrite app_nil_r.
Qed.

Lemma diff_loop_result :
  foldl (diff_iteration oldLines newLines) (mkDiffAcc [] [] [])
        (seq 0 (Nat.max (length oldLines) (length newLines)))
  = mkDiffAcc (drop (length oldLines) newLines)
              (drop (length newLines) oldLines)
              (omap (modification_at oldLines newLines)
                    (seq 0 (Nat.max (length oldLines) (length newLines)))).
Proof.
  rewrite diff_loop_invariant.
  by rewrite !take_ge by lia.
Qed.

(** The recorded modifications are those of the positions both sides have. *)
Lemma elem_of_modifications (n : nat) (m : Modification) :
  Nat.min (length oldLines) (length newLines) <= n ->
  m ∈ omap (modification_at oldLines newLines) (seq 0 n) <->
  exists (i : nat) (oldLine newLine : string),
    oldLines !! i = Some oldLine /\ newLines !! i = Some newLine /\
    oldLine <> newLine /\ m = mkModification (i + 1) oldLine newLine.
Proof.
  intros Hn. rewrite list_elem_of_omap. split.
  - intros (i & _ & Hi). unfold modification_at in Hi.
    destruct (oldLines !! i) as [oldLine|] eqn:Hold; [|done].
    destruct (newLines !! i) as [newLine|] eqn:Hnew; [|done].
    destruct (String.eqb_spec oldLine newLine) as [|Hne]; [done|].
    exists i, oldLine, newLine. by inversion Hi.
  - intros (i & oldLine & newLine & Hold & Hnew & Hne & ->).
    exists i. split.
    + apply elem_of_seq.
      apply lookup_lt_Some in Hold. apply lookup_lt_Some in Hnew. lia.
    + unfold modification_at. rewrite Hold, Hnew.
      by destruct (String.eqb_spec oldLine newLine).
Qed.

End DiffFacts.

Lemma generateDiff_unfold (oldContent newContent : string) :
  generateDiff oldContent newContent
  = let oldLines := split_lines oldContent in
    let newLines := split_lines newContent in
    let mods := omap (modification_at oldLines newLines)
                     (seq 0 (Nat.max (length oldLines) (length newLines))) in
    mkDiffResult (drop (length oldLines) newLines)
                 (drop (length newLines) oldLines) mods
                 (mkDiffStats (length (drop (length oldLines) newLines))
                              (length (drop (length newLines) oldLines))
                              (length mods)).
Proof. unfold generateDiff. simpl. by rewrite diff_loop_result. Qed.

Lemma modification_at_beyond (oldLines newLines : list string) (i : nat) :
  Nat.min (length oldLines) (length newLines) <= i ->
  modification_at oldLines newLines i = None.
Proof.
  intros Hi. unfold modification_at.
  destruct (oldLines !! i) as [x|] eqn:Hx; [|done].
  destruct (newLines !! i) as [y|] eqn:Hy; [|done].
  apply lookup_lt_Some in Hx. apply lookup_lt_Some in Hy. lia.
Qed.

Lemma omap_seq_beyond {B : Type} (f : nat -> option B) (n k : nat) :
  (forall i, n <= i -> f i = None) ->
  omap f (seq 0 (n + k)) = omap f (seq 0 n).
Proof.
  intros Hf. induction k as [|k IH].
  - by rewrite Nat.add_0_r.
  - rewrite Nat.add_succ_r, seq_S, omap_app, IH. simpl.
    rewrite Hf by lia. by rewrite app_nil_r.
Qed.

(** The modifications, over the positions both sides have. *)
Lemma modifications_upto_min (oldLines newLines : list string) :
  omap (modification_at oldLines newLines)
       (seq 0 (Nat.max (length oldLines) (length newLines)))
  = omap (modification_at oldLines newLines)
         (seq 0 (Nat.min (length oldLines) (length newLines))).
Proof.
  replace (Nat.max (length oldLines) (length newLines))
    with (Nat.min (length oldLines) (length newLines)
          + (Nat.max (length oldLines) (length newLines)
             - Nat.min (length oldLines) (length newLines))) by lia.
  apply omap_seq_beyond. intros i Hi. by apply modification_at_beyond.
Qed.

(** ** The loop of [mergeContent] when both sides are the same *)

Section MergeFacts.

Lemma line_eqb_refl (l : option string) : line_eqb l l = true.
Proof. destruct l as [s|]; simpl; [apply String.eqb_refl | done]. Qed.

Lemma line_eqb_sym (a b : option string) : line_eqb a b = line_eqb b a.
Proof. destruct a, b; simpl; try done. apply String.eqb_sym. Qed.

Lemma merge_loop_same_sides (baseLines lines : list string) (k : nat) :
  foldl (merge_iteration baseLines lines lines) (mkMergeAcc [] []) (seq 0 k)
  = mkMergeAcc [] ((fun i => or_empty (lines !! i)) <$> seq 0 k).
Proof.
  induction k as [|k IH]; [done|].
  rewrite seq_S, foldl_app, IH, fmap_app. simpl.
  unfold merge_iteration. by rewrite line_eqb_refl.
Qed.

(** Reading a list at the indices below its length, and at [n] more, gives
    the list padded with [n] empty lines. *)
Lemma or_empty_lookup_seq (lines : list string) (n : nat) :
  (fun i => or_empty (lines !! i)) <$> seq 0 (length lines + n)
  = lines ++ replicate n EmptyString.
Proof.
  apply list_eq. intros i.
  rewrite list_lookup_fmap.
  destruct (decide (i < length lines)) as [Hlt|Hge].
  - rewrite lookup_seq_lt by lia. rewrite lookup_app_l by done. simpl.
    destruct (lookup_lt_is_Some_2 lines i Hlt) as [x Hx].
    by rewrite Hx.
  - rewrite lookup_app_r by lia.
    destruct (decide (i < length lines + n)) as [Hlt'|Hge'].
    + rewrite lookup_seq_lt by lia. simpl.
      rewrite (proj2 (lookup_ge_None lines i)) by lia.
      by rewrite lookup_replicate_2 by lia.
    + rewrite lookup_seq_ge by lia. simpl. symmetry.
      apply lookup_replicate_None. lia.
Qed.

Lemma newlines_S_end (k : nat) : newlines (S k) = newlines k +:+ nl.
Proof.
  induction k as [|k IH]; [done|].
  change (newlines (S (S k))) with (String newline_char (newlines (S k))).
  change (newlines (S k)) with (String newline_char (newlines k)) at 2.
  rewrite string_app_cons. by f_equal.
Qed.

Lemma join_lines_padded (lines : list string) (k : nat) :
  lines <> [] ->
  join_lines (lines ++ replicate k EmptyString) = join_lines lines +:+ newlines k.
Proof.
  intros Hne. induction k as [|k IH].
  - simpl. by rewrite app_nil_r, string_app_empty_r.
  - rewrite replicate_S_end, app_assoc, join_lines_snoc_empty.
    + by rewrite IH, newlines_S_end, string_app_assoc.
    + by destruct lines.
Qed.

Lemma string_length_app (s1 s2 : string) :
  String.length (s1 +:+ s2) = String.length s1 + String.length s2.
Proof.
  induction s1 as [|c rest IH]; [done|].
  rewrite string_app_cons. simpl. by rewrite IH.
Qed.

Lemma newlines_length (k : nat) : String.length (newlines k) = k.
Proof. induction k as [|k IH]; simpl; [done | by rewrite IH]. Qed.

End MergeFacts.

(** ** The loop of [calculateSimilarity] *)

Section SimilarityFacts.

Lemma identical_positions_snoc (a b : list string) (x y : string) :
  length a = length b ->
  identical_positions (a ++ [x]) (b ++ [y])
  = identical_positions a b + (if String.eqb x y then 1 else 0).
Proof.
  revert b. induction a as [|l1 a IH]; intros [|l2 b] Hlen; try discriminate.
  - cbn [app identical_positions]. destruct (String.eqb x y); lia.
  - injection Hlen as Hlen. cbn [app identical_positions].
    rewrite (IH b Hlen). lia.
Qed.

Lemma similarity_loop (lines1 lines2 : list string) (k : nat) :
  k <= Nat.min (length lines1) (length lines2) ->
  foldl (similarity_iteration lines1 lines2) 0 (seq 0 k)
  = identical_positions (take k lines1) (take k lines2).
Proof.
  induction k as [|k IH]; intros Hk; [done|].
  rewrite seq_S, foldl_app, IH by lia. simpl.
  destruct (lookup_lt_is_Some_2 lines1 k) as [x Hx]; [lia|].
  destruct (lookup_lt_is_Some_2 lines2 k) as [y Hy]; [lia|].
  rewrite (take_S_r _ _ _ Hx), (take_S_r _ _ _ Hy).
  rewrite identical_positions_snoc by (rewrite !length_take; lia).
  unfold similarity_iteration. rewrite Hx, Hy. simpl.
  destruct (String.eqb x y); lia.
Qed.

Lemma identical_positions_take (lines1 lines2 : list string) :
  identical_positions (take (Nat.min (length lines1) (length lines2)) lines1)
                      (take (Nat.min (length lines1) (length lines2)) lines2)
  = identical_positions lines1 lines2.
Proof.
  revert lines2. induction lines1 as [|l1 rest1 IH]; intros [|l2 rest2]; try done.
  simpl. by rewrite IH.
Qed.

Lemma identical_positions_le (lines1 lines2 : list string) :
  identical_positions lines1 lines2 <= Nat.min (length lines1) (length lines2).
Proof.
  revert lines2. induction lines1 as [|l1 rest1 IH]; intros [|l2 rest2];
    simpl; try lia.
  specialize (IH rest2). destruct (String.eqb l1 l2); lia.
Qed.

Lemma identical_positions_sym (lines1 lines2 : list string) :
  identical_positions lines1 lines2 = identical_positions lines2 lines1.
Proof.
  revert lines2. induction lines1 as [|l1 rest1 IH]; intros [|l2 rest2];
    simpl; try done.
  by rewrite IH, String.eqb_sym.
Qed.

Lemma identical_positions_refl (lines : list string) :
  identical_positions lines lines = length lines.
Proof.
  induction lines as [|l rest IH]; simpl; [done|].
  by rewrite String.eqb_refl, IH.
Qed.

Lemma calculateSimilarity_unfold (content1 content2 : string) :
  calculateSimilarity content1 content2
  = quotient (identical_positions (split_lines content1) (split_lines content2))
             (Nat.max (length (split_lines content1))
                      (length (split_lines content2))).
Proof.
  unfold calculateSimilarity.
  pose proof (split_lines_length content1) as H1.
  destruct (Nat.eqb_spec (Nat.max (length (split_lines content1))
                                  (length (split_lines content2))) 0) as [H0|_].
  - lia.
  - by rewrite similarity_loop, identical_positions_take.
Qed.

Lemma quotient_bounds (n d : nat) :
  n <= d -> d <> 0 -> (0 <= quotient n d)%Q /\ (quotient n d <= 1)%Q.
Proof.
  intros Hle Hd. unfold quotient, Qle. simpl.
  assert (Z.pos (Pos.of_nat d) = Z.of_nat d) as ->.
  { rewrite <- positive_nat_Z. f_equal. by apply Nat2Pos.id. }
  lia.
Qed.

Lemma quotient_same (n : nat) : n <> 0 -> (quotient n n == 1)%Q.
Proof.
  intros Hn. unfold quotient, Qeq. simpl.
  assert (Z.pos (Pos.of_nat n) = Z.of_nat n) as ->.
  { rewrite <- positive_nat_Z. f_equal. by apply Nat2Pos.id. }
  lia.
Qed.

End SimilarityFacts.

(** ** Claims on the pure engines *)

(** The whole result of [generateDiff], without the loop. *)
Lemma generateDiff_additions (oldContent newContent : string) :
  additions (generateDiff oldContent newContent)
  = drop (length (split_lines oldContent)) (split_lines newContent).
Proof. by rewrite generateDiff_unfold. Qed.

Lemma generateDiff_deletions (oldContent newContent : string) :
  deletions (generateDiff oldContent newContent)
  = drop (length (split_lines newContent)) (split_lines oldContent).
Proof. by rewrite generateDiff_unfold. Qed.

Lemma drop_length_cons (x : string) (xs : list string) :
  xs <> [] -> drop (length xs) (x :: xs) = [default EmptyString (last xs)].
Proof.
  intros Hne. destruct (last xs) as [z|] eqn:Hlast.
  - apply last_Some in Hlast as [front ->].
    rewrite length_app. simpl.
    replace (length front + 1) with (length (x :: front)) by (simpl; lia).
    apply (drop_app_length (x :: front)).
  - by apply last_None in Hlast.
Qed.

(** C2, as the code has it: merging two identical sides succeeds without
    conflicts, and the merged content is the common side followed by one
    newline for every line the base has beyond it; it is the common side
    itself exactly when the base has no more lines than the side. *)
Theorem mergeContent_same_sides (b c : string) :
  mergeContent b c c
  = mkMergeResult true
      (Some (c +:+ newlines (length (split_lines b) - length (split_lines c))))
      None
  /\ (content (mergeContent b c c) = Some c
      <-> length (split_lines b) <= length (split_lines c)).
Proof.
  assert (mergeContent b c c
          = mkMergeResult true
              (Some (c +:+ newlines (length (split_lines b)
                                     - length (split_lines c)))) None) as Heq.
  { unfold mergeContent. simpl. rewrite merge_loop_same_sides. simpl.
    replace (Nat.max (Nat.max (length (split_lines b)) (length (split_lines c)))
                     (length (split_lines c)))
      with (length (split_lines c)
            + (length (split_lines b) - length (split_lines c))) by lia.
    rewrite or_empty_lookup_seq.
    rewrite join_lines_padded by apply split_lines_not_nil.
    by rewrite join_split_lines. }
  split; [exact Heq|].
  rewrite Heq. simpl. split.
  - intros Hc. injection Hc as Hc.
    apply (f_equal String.length) in Hc.
    rewrite string_length_app, newlines_length in Hc. lia.
  - intros Hle.
    replace (length (split_lines b) - length (split_lines c)) with 0 by lia.
    simpl. by rewrite string_app_empty_r.
Qed.

(** C2 fails as stated: with a two-line base and the one-line side ["z"] on
    both sides, the merged content is ["z\n"], not ["z"]. *)
Lemma merge_longer_base_counterexample :
  content (mergeContent ("x" +:+ nl +:+ "y") "z" "z") = Some ("z" +:+ nl)
  /\ content (mergeContent ("x" +:+ nl +:+ "y") "z" "z") <> Some "z".
Proof. split; [reflexivity | discriminate]. Qed.

(** C4, as the code has it: the comparison is positional.  After a whole
    line [l] is put in front of content [c], the one addition reported is
    the last line of [c], there is no deletion, and the modifications are,
    in the order of the lines of [c] and once each, those of the positions
    where a line of [c] differs from the line that now stands there, which
    is its predecessor ([l] for the first). *)
Theorem generateDiff_line_inserted_first (c l : string) :
  single_line l ->
  additions (generateDiff c (l +:+ nl +:+ c)) = [last_line c]
  /\ deletions (generateDiff c (l +:+ nl +:+ c)) = []
  /\ modifications (generateDiff c (l +:+ nl +:+ c))
     = omap (modification_at (split_lines c) (l :: split_lines c))
            (seq 0 (length (split_lines c)))
  /\ forall m : Modification,
       m ∈ modifications (generateDiff c (l +:+ nl +:+ c)) <->
       exists (i : nat) (oldLine newLine : string),
         split_lines c !! i = Some oldLine /\
         (l :: split_lines c) !! i = Some newLine /\
         oldLine <> newLine /\ m = mkModification (i + 1) oldLine newLine.
Proof.
  intros Hl.
  assert (split_lines (l +:+ nl +:+ c) = l :: split_lines c) as Hnew.
  { rewrite split_lines_app_nl. unfold single_line in Hl. by rewrite Hl. }
  rewrite generateDiff_unfold, Hnew. simpl additions. simpl deletions.
  simpl modifications. split; [|split; [|split]].
  - apply drop_length_cons, split_lines_not_nil.
  - apply drop_ge. simpl. lia.
  - rewrite modifications_upto_min. f_equal. f_equal. simpl. lia.
  - intros m. apply elem_of_modifications. simpl. lia.
Qed.

Lemma generateDiff_line_inserted_first_witness :
  single_line "x"
  /\ additions (generateDiff ("a" +:+ nl +:+ "b")
                             ("x" +:+ nl +:+ "a" +:+ nl +:+ "b")) = ["b"]
  /\ modifications (generateDiff ("a" +:+ nl +:+ "b")
                                 ("x" +:+ nl +:+ "a" +:+ nl +:+ "b"))
     = [mkModification 1 "a" "x"; mkModification 2 "b" "a"].
Proof.
  split; [reflexivity|].
  destruct (generateDiff_line_inserted_first ("a" +:+ nl +:+ "b") "x" eq_refl)
    as (Hadd & _ & Hmods & _).
  split; [exact Hadd|]. rewrite Hmods. reflexivity.
Defined.

(** C4 fails as stated: putting ["x"] in front of ["a\nb"] is reported as
    the addition of ["b"] and two modifications, not as the addition of
    ["x"] alone. *)
Lemma diff_shifted_lines_counterexample :
  generateDiff ("a" +:+ nl +:+ "b") ("x" +:+ nl +:+ "a" +:+ nl +:+ "b")
  = mkDiffResult ["b"] []
      [mkModification 1 "a" "x"; mkModification 2 "b" "a"]
      (mkDiffStats 1 0 2)
  /\ ~ (additions (generateDiff ("a" +:+ nl +:+ "b")
                                ("x" +:+ nl +:+ "a" +:+ nl +:+ "b")) = ["x"]
        /\ modifications (generateDiff ("a" +:+ nl +:+ "b")
                                       ("x" +:+ nl +:+ "a" +:+ nl +:+ "b")) = []).
Proof. split; [reflexivity | intros [H _]; discriminate H]. Qed.

(** C5, as the code has it: two empty contents differ nowhere; against the
    empty content, which has one empty line, ["a\nb"] gives one modification
    (line 1, ["a"] to the empty line), one deletion (["b"]) and no
    addition. *)
Theorem generateDiff_empty_cases :
  generateDiff "" "" = mkDiffResult [] [] [] (mkDiffStats 0 0 0)
  /\ generateDiff ("a" +:+ nl +:+ "b") ""
     = mkDiffResult [] ["b"] [mkModification 1 "a" ""] (mkDiffStats 0 1 1).
Proof. split; reflexivity. Qed.

(** C5 fails as stated: [generateDiff("a\nb", "")] has one deletion, not
    two. *)
Lemma diff_against_empty_counterexample :
  length (deletions (generateDiff ("a" +:+ nl +:+ "b") "")) = 1
  /\ length (deletions (generateDiff ("a" +:+ nl +:+ "b") "")) <> 2.
Proof. split; [reflexivity | discriminate]. Qed.

(** C8: the similarity is the number of positions with identical lines over
    the larger line count, which is never zero; it lies between 0 and 1;
    two empty contents have similarity 1. *)
Theorem calculateSimilarity_fraction (a b : string) :
  Nat.max (length (split_lines a)) (length (split_lines b)) <> 0
  /\ calculateSimilarity a b
     = quotient (identical_positions (split_lines a) (split_lines b))
                (Nat.max (length (split_lines a)) (length (split_lines b)))
  /\ (0 <= calculateSimilarity a b)%Q
  /\ (calculateSimilarity a b <= 1)%Q
  /\ calculateSimilarity "" "" = 1%Q.
Proof.
  pose proof (split_lines_length a) as Ha.
  pose proof (identical_positions_le (split_lines a) (split_lines b)) as Hle.
  split; [lia|]. split; [apply calculateSimilarity_unfold|].
  rewrite calculateSimilarity_unfold.
  split; [|split; [|reflexivity]]; apply quotient_bounds; lia.
Qed.

(** C9: the additions are the lines of the new content beyond the old line
    count, the deletions the lines of the old content beyond the new line
    count; so one of the two lists is always empty. *)
Theorem generateDiff_trailing_lines (oldContent newContent : string) :
  additions (generateDiff oldContent newContent)
  = drop (length (split_lines oldContent)) (split_lines newContent)
  /\ deletions (generateDiff oldContent newContent)
     = drop (length (split_lines newContent)) (split_lines oldContent)
  /\ Z.of_nat (length (additions (generateDiff oldContent newContent)))
     = Z.max 0 (Z.of_nat (length (split_lines newContent))
                - Z.of_nat (length (split_lines oldContent)))
  /\ Z.of_nat (length (deletions (generateDiff oldContent newContent)))
     = Z.max 0 (Z.of_nat (length (split_lines oldContent))
                - Z.of_nat (length (split_lines newContent)))
  /\ (additions (generateDiff oldContent newContent) = []
      \/ deletions (generateDiff oldContent newContent) = []).
Proof.
  rewrite generateDiff_additions, generateDiff_deletions.
  split; [done|]. split; [done|].
  rewrite !length_drop. split; [lia|]. split; [lia|].
  destruct (decide (length (split_lines newContent)
                    <= length (split_lines oldContent))) as [Hle|Hgt].
  - left. apply drop_ge. lia.
  - right. apply drop_ge. lia.
Qed.

(** C10: the similarity does not depend on the order of its arguments, and
    a content is fully similar to itself. *)
Theorem calculateSimilarity_symmetric_reflexive (a b : string) :
  calculateSimilarity a b = calculateSimilarity b a
  /\ (calculateSimilarity a a == 1)%Q.
Proof.
  rewrite !calculateSimilarity_unfold. split.
  - by rewrite identical_positions_sym, Nat.max_comm.
  - rewrite identical_positions_refl, Nat.max_id.
    apply quotient_same. pose proof (split_lines_length a). lia.
Qed.

(** ** The version store *)

Section StoreFacts.

Lemma mem_true (x : string) (xs : list string) : mem x xs = true <-> x ∈ xs.
Proof.
  unfold mem. rewrite existsb_exists, list_elem_of_In. split.
  - intros (y & Hin & Heq). apply String.eqb_eq in Heq. by subst y.
  - intros Hin. exists x. split; [done | apply String.eqb_refl].
Qed.

Lemma mem_false (x : string) (xs : list string) : mem x xs = false <-> x ∉ xs.
Proof.
  rewrite <- mem_true. destruct (mem x xs); split; try done.
Qed.

Lemma greatest_None (zs : list Z) : greatest zs = None <-> zs = [].
Proof.
  destruct zs as [|z rest]; simpl; [done|].
  destruct (greatest rest); split; done.
Qed.

Lemma greatest_Some (zs : list Z) (m : Z) :
  greatest zs = Some m -> m ∈ zs /\ forall z : Z, z ∈ zs -> (z <= m)%Z.
Proof.
  revert m. induction zs as [|z rest IH]; intros m; simpl; [done|].
  destruct (greatest rest) as [m'|] eqn:Hrest.
  - intros [= <-]. destruct (IH m' eq_refl) as [Hin Hmax]. split.
    + destruct (Z.max_spec z m') as [[_ ->]|[_ ->]];
        [by apply list_elem_of_further | apply list_elem_of_here].
    + intros x Hx. apply elem_of_cons in Hx as [->|Hx]; [lia|].
      specialize (Hmax x Hx). lia.
  - intros [= <-]. apply greatest_None in Hrest. subst rest. split.
    + apply list_elem_of_here.
    + intros x Hx. apply elem_of_cons in Hx as [->|Hx]; [lia|].
      by apply elem_of_nil in Hx.
Qed.

(** The number given to a new version is the greatest existing one plus
    one. *)
Lemma nextVersion_succ_of_greatest (a : string) (db : Db) :
  succ_of_greatest (nextVersion a db)
                   (map ArtifactVersion.version (versions_of a db)).
Proof.
  unfold nextVersion, select_latestVersion, succ_of_greatest.
  destruct (greatest (map ArtifactVersion.version (versions_of a db)))
    as [m|] eqn:Hg.
  - right. apply greatest_Some in Hg as [Hin Hmax]. simpl.
    assert ((if (m =? 0)%Z then 0%Z else m) = m) as ->.
    { destruct (Z.eqb_spec m 0); congruence. }
    replace (m + 1 - 1)%Z with m by lia. done.
  - left. apply greatest_None in Hg. done.
Qed.

Lemma nextVersion_fresh (a : string) (db : Db) :
  nextVersion a db ∉ map ArtifactVersion.version (versions_of a db).
Proof.
  intros Hin.
  destruct (nextVersion_succ_of_greatest a db) as [[Hnil _]|[_ Hmax]].
  - rewrite Hnil in Hin. by apply elem_of_nil in Hin.
  - specialize (Hmax _ Hin). lia.
Qed.

Lemma deactivated_id a v :
  ArtifactVersion.id (deactivated a v) = ArtifactVersion.id v.
Proof. unfold deactivated. by destruct (_ && _). Qed.

Lemma deactivated_artifactId a v :
  ArtifactVersion.artifactId (deactivated a v) = ArtifactVersion.artifactId v.
Proof. unfold deactivated. by destruct (_ && _). Qed.

Lemma deactivated_version a v :
  ArtifactVersion.version (deactivated a v) = ArtifactVersion.version v.
Proof. unfold deactivated. by destruct (_ && _). Qed.

Lemma deactivated_commitHash a v :
  ArtifactVersion.commitHash (deactivated a v) = ArtifactVersion.commitHash v.
Proof. unfold deactivated. by destruct (_ && _). Qed.

Lemma deactivated_content a v :
  ArtifactVersion.content (deactivated a v) = ArtifactVersion.content v.
Proof. unfold deactivated. by destruct (_ && _). Qed.

Lemma deactivated_title a v :
  ArtifactVersion.title (deactivated a v) = ArtifactVersion.title v.
Proof. unfold deactivated. by destruct (_ && _). Qed.

Lemma deactivated_inactive a v :
  ArtifactVersion.artifactId v = a ->
  ArtifactVersion.isActive (deactivated a v) = false.
Proof.
  intros <-. unfold deactivated. rewrite String.eqb_refl.
  by destruct v as [? ? ? ? ? ? ? ? ? ? ? [] ?].
Qed.

Lemma deactivate_active_rows (a : string) (db : Db) :
  artifactVersion (deactivate_active a db)
  = map (deactivated a) (artifactVersion db).
Proof. reflexivity. Qed.

Lemma map_deactivated (B : Type) (f : ArtifactVersion.t -> B) (a : string)
    (rows : list ArtifactVersion.t) :
  (forall v, f (deactivated a v) = f v) ->
  map f (map (deactivated a) rows) = map f rows.
Proof.
  intros Hf. rewrite List.map_map. apply List.map_ext. exact Hf.
Qed.

(** The rows of an artifact, seen through the deactivating update. *)
Lemma versions_of_deactivate (a a' : string) (db : Db) :
  versions_of a' (deactivate_active a db)
  = map (deactivated a) (versions_of a' db).
Proof.
  unfold versions_of. rewrite deactivate_active_rows.
  induction (artifactVersion db) as [|v rows IH]; [done|].
  simpl. rewrite deactivated_artifactId.
  destruct (String.eqb (ArtifactVersion.artifactId v) a'); simpl; by rewrite IH.
Qed.

Lemma active_after_deactivate (a : string) (db : Db) :
  List.filter ArtifactVersion.isActive
              (map (deactivated a) (versions_of a db)) = [].
Proof.
  unfold versions_of.
  induction (artifactVersion db) as [|v rows IH]; [done|].
  simpl. destruct (String.eqb_spec (ArtifactVersion.artifactId v) a) as [Ha|];
    [|done].
  simpl. by rewrite (deactivated_inactive a v Ha).
Qed.

End StoreFacts.

Lemma mem_negb_true (x : string) (xs : list string) :
  x ∉ xs -> negb (mem x xs) = true.
Proof. intros Hx. apply mem_false in Hx. by rewrite Hx. Qed.

(** Rewriting the membership tests of an insert with what is known. *)
Ltac accept_row :=
  repeat match goal with
         | H : ?x ∉ ?xs |- context [negb (mem ?x ?xs)] =>
             rewrite (mem_negb_true x xs H)
         | H : ?x ∈ ?xs |- context [mem ?x ?xs] =>
             rewrite (proj2 (mem_true x xs) H)
         end.

Section CreateFacts.

Variable sha256_hex : string -> string.

Lemma insert_artifactVersion_Some (row : ArtifactVersion.t) (db db' : Db) :
  insert_artifactVersion row db = Some db' ->
  db' = mkDb (document db) (user db) (artifactVersion db ++ [row])
             (artifactBranch db) (artifactChangeLog db).
Proof.
  unfold insert_artifactVersion.
  destruct (_ && _); [by intros [= <-] | done].
Qed.

Lemma insert_artifactChangeLog_Some (row : ArtifactChangeLog.t) (db db' : Db) :
  insert_artifactChangeLog row db = Some db' ->
  db' = mkDb (document db) (user db) (artifactVersion db)
             (artifactBranch db) (artifactChangeLog db ++ [row]).
Proof.
  unfold insert_artifactChangeLog.
  destruct (_ && _); [by intros [= <-] | done].
Qed.

Lemma varchar_short (n : nat) (s : string) :
  String.length s <= n -> varchar n s = Some s.
Proof.
  intros Hlen. unfold varchar. by rewrite (proj2 (Nat.leb_le _ _) Hlen).
Qed.

Lemma insert_artifactBranch_Some (row : ArtifactBranch.t) (db db' : Db) :
  insert_artifactBranch row db = Some db' ->
  exists stored : string,
    varchar 100 (ArtifactBranch.name row) = Some stored
    /\ db' = mkDb (document db) (user db) (artifactVersion db)
                  (artifactBranch db
                     ++ [ArtifactBranch.mk
                           (ArtifactBranch.id row)
                           (ArtifactBranch.artifactId row) stored
                           (ArtifactBranch.headVersionId row)
                           (ArtifactBranch.isDefault row)
                           (ArtifactBranch.createdAt row)
                           (ArtifactBranch.updatedAt row)])
                  (artifactChangeLog db).
Proof.
  unfold insert_artifactBranch.
  destruct (varchar 100 _) as [stored|]; [|done].
  destruct (_ && _); [|done]. intros [= <-]. by exists stored.
Qed.

(** The row [createArtifactVersion] inserts, and where a call can stop. *)
Lemma createArtifactVersion_rows (env : Env) (a title content : string)
    (msg : option string) (author : string) (parent : option string)
    (db db' : Db) (r : Result ArtifactVersion.t) :
  createArtifactVersion sha256_hex env a title content msg author parent db
  = (r, db') ->
  let v := ArtifactVersion.mk (versionUuid env) a (nextVersion a db)
             (generateCommitHash sha256_hex env a (nextVersion a db) content)
             parent title content (generateContentHash sha256_hex content)
             msg author (defaultNow env) true None in
  (r = Returns v
   /\ artifactVersion db' = map (deactivated a) (artifactVersion db) ++ [v])
  \/ (exists e, r = Throws e
      /\ (artifactVersion db' = map (deactivated a) (artifactVersion db)
          \/ artifactVersion db'
             = map (deactivated a) (artifactVersion db) ++ [v])).
Proof.
  intros Hcall v.
  unfold createArtifactVersion, logArtifactChange, try_catch, bind, db_select,
    db_update, db_insert, resolve in Hcall.
  change (version_or_0 (select_latestVersion a db) + 1)%Z
    with (nextVersion a db) in Hcall.
  fold v in Hcall.
  destruct (insert_artifactVersion v (deactivate_active a db))
    as [db2|] eqn:Hversion.
  - apply insert_artifactVersion_Some in Hversion. subst db2.
    destruct (insert_artifactChangeLog _ _) as [db4|] eqn:Hlog.
    + apply insert_artifactChangeLog_Some in Hlog. subst db4.
      injection Hcall as <- <-. by left.
    + injection Hcall as <- <-. right. eexists. split; [done|]. by right.
  - injection Hcall as <- <-. right. eexists. split; [done|]. by left.
Qed.

Lemma createArtifactVersion_returns (env : Env) (a title content : string)
    (msg : option string) (author : string) (parent : option string)
    (db db' : Db) (v : ArtifactVersion.t) :
  createArtifactVersion sha256_hex env a title content msg author parent db
  = (Returns v, db') ->
  v = ArtifactVersion.mk (versionUuid env) a (nextVersion a db)
        (generateCommitHash sha256_hex env a (nextVersion a db) content)
        parent title content (generateContentHash sha256_hex content)
        msg author (defaultNow env) true None
  /\ artifactVersion db' = map (deactivated a) (artifactVersion db) ++ [v].
Proof.
  intros Hcall.
  destruct (createArtifactVersion_rows _ _ _ _ _ _ _ _ _ _ Hcall)
    as [[Hr Hrows]|(e & Hr & _)]; [|done].
  injection Hr as ->. done.
Qed.

(** The rows of the artifact after a call that returned. *)
Lemma versions_of_after_create (env : Env) (a title content : string)
    (msg : option string) (author : string) (parent : option string)
    (db db' : Db) (v : ArtifactVersion.t) :
  createArtifactVersion sha256_hex env a title content msg author parent db
  = (Returns v, db') ->
  versions_of a db' = map (deactivated a) (versions_of a db) ++ [v]
  /\ ArtifactVersion.version v = nextVersion a db.
Proof.
  intros Hcall. apply createArtifactVersion_returns in Hcall as [Hv Hrows].
  split; [|by rewrite Hv].
  unfold versions_of at 1. rewrite Hrows, List.filter_app.
  change (List.filter _ (map (deactivated a) (artifactVersion db)))
    with (versions_of a (deactivate_active a db)).
  rewrite versions_of_deactivate. f_equal.
  simpl. rewrite Hv at 1. simpl. by rewrite String.eqb_refl.
Qed.

Lemma versions_of_numbers_deactivated (a a' : string) (db : Db) :
  map ArtifactVersion.version (map (deactivated a) (versions_of a' db))
  = map ArtifactVersion.version (versions_of a' db).
Proof. apply map_deactivated. intros v. apply deactivated_version. Qed.

(** After a call that returned, the next number is one more. *)
Lemma nextVersion_after_create (env : Env) (a title content : string)
    (msg : option string) (author : string) (parent : option string)
    (db db' : Db) (v : ArtifactVersion.t) :
  createArtifactVersion sha256_hex env a title content msg author parent db
  = (Returns v, db') ->
  nextVersion a db' = (ArtifactVersion.version v + 1)%Z.
Proof.
  intros Hcall.
  destruct (versions_of_after_create _ _ _ _ _ _ _ _ _ _ Hcall) as [Hrows Hv].
  pose proof (nextVersion_succ_of_greatest a db') as Hnext'.
  pose proof (nextVersion_succ_of_greatest a db) as Hnext.
  rewrite Hrows, map_app, versions_of_numbers_deactivated in Hnext'.
  simpl in Hnext'. rewrite Hv in *.
  set (n := nextVersion a db) in *. set (n' := nextVersion a db') in *.
  set (old := map ArtifactVersion.version (versions_of a db)) in *.
  destruct Hnext' as [[Hnil _]|[Hin' Hmax']].
  { by destruct old. }
  assert (n ∈ old ++ [n]) as Hn by (apply elem_of_app; right; apply list_elem_of_here).
  specialize (Hmax' n Hn).
  apply elem_of_app in Hin' as [Hin'|Hin'].
  - destruct Hnext as [[Hnil _]|[_ Hmax]].
    + rewrite Hnil in Hin'. by apply elem_of_nil in Hin'.
    + specialize (Hmax _ Hin'). lia.
  - apply list_elem_of_singleton in Hin'. lia.
Qed.

End CreateFacts.

Section SequenceFacts.

Variable sha256_hex : string -> string.

Lemma create_versions_cons (a : string) (c : CreateCall)
    (rest : list CreateCall) (db db' : Db) (vs : list ArtifactVersion.t) :
  create_versions sha256_hex a (c :: rest) db = Some (vs, db') ->
  exists (v : ArtifactVersion.t) (vs' : list ArtifactVersion.t) (db1 : Db),
    createArtifactVersion sha256_hex (call_env c) a (call_title c)
      (call_content c) (call_commitMessage c) (call_authorId c)
      (call_parentVersionId c) db = (Returns v, db1)
    /\ create_versions sha256_hex a rest db1 = Some (vs', db')
    /\ vs = v :: vs'.
Proof.
  cbn [create_versions]. intros Hrun.
  destruct (createArtifactVersion _ _ _ _ _ _ _ _ db) as [[v|e] db1]; [|done].
  destruct (create_versions sha256_hex a rest db1) as [[vs' db'']|] eqn:Hrest;
    [|done].
  simplify_eq. by eexists _, _, _.
Qed.

Lemma active_versions_after_create (env : Env) (a title content : string)
    (msg : option string) (author : string) (parent : option string)
    (db db' : Db) (v : ArtifactVersion.t) :
  createArtifactVersion sha256_hex env a title content msg author parent db
  = (Returns v, db') ->
  active_versions a db' = [v].
Proof.
  intros Hcall. unfold active_versions.
  destruct (versions_of_after_create _ _ _ _ _ _ _ _ _ _ _ Hcall) as [-> _].
  rewrite List.filter_app, active_after_deactivate.
  apply createArtifactVersion_returns in Hcall as [-> _]. reflexivity.
Qed.

(** C1: after one or more successive calls of [createArtifactVersion] on an
    artifact that all returned, the artifact has exactly one active version,
    the one the last call returned.  This holds from any database,
    whatever number of its versions were active before. *)
Theorem create_versions_one_active (a : string) (calls : list CreateCall)
    (db db' : Db) (vs : list ArtifactVersion.t) :
  calls <> [] ->
  create_versions sha256_hex a calls db = Some (vs, db') ->
  exists v : ArtifactVersion.t,
    last vs = Some v /\ active_versions a db' = [v]
    /\ ArtifactVersion.isActive v = true.
Proof.
  revert db vs. induction calls as [|c rest IH]; intros db vs Hne Hrun; [done|].
  apply create_versions_cons in Hrun as (v & vs' & db1 & Hcall & Hrest & ->).
  destruct rest as [|c' rest'].
  - simpl in Hrest. injection Hrest as <- <-. exists v.
    split; [done|]. split; [by eapply active_versions_after_create|].
    by apply createArtifactVersion_returns in Hcall as [-> _].
  - destruct (IH db1 vs') as (w & Hlast & Hactive); [done | done |].
    exists w. split; [|done].
    destruct vs' as [|v' vs'']; [done | exact Hlast].
Qed.

Lemma create_versions_numbers (a : string) (calls : list CreateCall)
    (db db' : Db) (vs : list ArtifactVersion.t) :
  create_versions sha256_hex a calls db = Some (vs, db') ->
  (forall v, head vs = Some v -> ArtifactVersion.version v = nextVersion a db)
  /\ (forall (i : nat) (v w : ArtifactVersion.t),
        vs !! i = Some v -> vs !! S i = Some w ->
        ArtifactVersion.version w = (ArtifactVersion.version v + 1)%Z).
Proof.
  revert db vs. induction calls as [|c rest IH]; intros db vs Hrun.
  - simpl in Hrun. injection Hrun as <- <-. split; intros; done.
  - apply create_versions_cons in Hrun as (v & vs' & db1 & Hcall & Hrest & ->).
    destruct (IH db1 vs' Hrest) as [Hhead Hsucc]. split.
    + intros v0 [= <-].
      by destruct (versions_of_after_create _ _ _ _ _ _ _ _ _ _ _ Hcall).
    + intros [|i] v0 w Hv0 Hw.
      * injection Hv0 as <-. simpl in Hw.
        rewrite (Hhead w); [|by destruct vs'; simplify_eq/=].
        by eapply nextVersion_after_create.
      * by eapply Hsucc.
Qed.

Lemma try_catch_inv {A : Type} (body : Async A) (code cause : string)
    (db db' : Db) (r : Result A) :
  try_catch body code cause db = (r, db') ->
  (exists a, body db = (Returns a, db') /\ r = Returns a)
  \/ (exists e, body db = (Throws e, db')
      /\ r = Throws (SDKError (mkChatSDKError code cause))).
Proof.
  unfold try_catch. destruct (body db) as [[a|e] db0]; intros [= <- <-];
    [left | right]; eexists; done.
Qed.

(** The rows of the artifact after [restoreArtifactVersion], whatever its
    outcome: the former rows, deactivated or not, and behind them the new
    row if one was inserted. *)
Lemma restoreArtifactVersion_rows (env : Env) (a versionId userId : string)
    (db db' : Db) (r : Result ArtifactVersion.t) :
  restoreArtifactVersion sha256_hex env a versionId userId db = (r, db') ->
  exists (former added : list ArtifactVersion.t),
    versions_of a db' = former ++ added
    /\ map ArtifactVersion.version former
       = map ArtifactVersion.version (versions_of a db)
    /\ (forall v, r = Returns v -> added = [v])
    /\ (forall v, v ∈ added -> ArtifactVersion.version v = nextVersion a db).
Proof.
  intros Hcall. unfold restoreArtifactVersion in Hcall.
  apply try_catch_inv in Hcall. unfold bind, db_select, throw in Hcall.
  destruct (select_version versionId a db) as [t|].
  - assert (exists r0,
      createArtifactVersion sha256_hex env a (ArtifactVersion.title t)
        (ArtifactVersion.content t)
        (Some ("Restored from version "
               +:+ decimal (ArtifactVersion.version t))) userId None db
      = (r0, db') /\ (forall v, r = Returns v -> r0 = Returns v))
      as (r0 & Hcreate & Hr).
    { destruct Hcall as [(v & Hb & ->)|(e & Hb & ->)]; eexists; split;
        try exact Hb; intros v' Hv'; [done | discriminate Hv']. }
    pose proof (createArtifactVersion_rows _ _ _ _ _ _ _ _ _ _ _ Hcreate)
      as Hshape. simpl in Hshape.
    set (new := ArtifactVersion.mk _ _ _ _ _ _ _ _ _ _ _ _ _) in Hshape.
    assert (versions_of a db' = map (deactivated a) (versions_of a db)
            \/ versions_of a db' = map (deactivated a) (versions_of a db) ++ [new])
      as Hrows.
    { assert (List.filter
                (fun v => String.eqb (ArtifactVersion.artifactId v) a)
                (map (deactivated a) (artifactVersion db))
              = map (deactivated a) (versions_of a db)) as Hf
        by apply (versions_of_deactivate a a db).
      destruct Hshape as [[_ Hrows]|(e & _ & [Hrows|Hrows])];
        [right | left | right]; unfold versions_of at 1; rewrite Hrows;
        [| exact Hf |]; rewrite List.filter_app, Hf; simpl;
        by rewrite String.eqb_refl. }
    destruct Hrows as [Hrows|Hrows].
    + exists (map (deactivated a) (versions_of a db)), [].
      rewrite app_nil_r. split; [done|].
      split; [apply versions_of_numbers_deactivated|]. split.
      * intros v Hv. apply Hr in Hv. subst r0.
        destruct (versions_of_after_create _ _ _ _ _ _ _ _ _ _ _ Hcreate)
          as [Hrows' _].
        rewrite Hrows in Hrows'. apply (f_equal length) in Hrows'.
        rewrite length_app in Hrows'. simpl in Hrows'. lia.
      * intros v Hv. by apply elem_of_nil in Hv.
    + exists (map (deactivated a) (versions_of a db)), [new].
      split; [done|]. split; [apply versions_of_numbers_deactivated|]. split.
      * intros v Hv. apply Hr in Hv. subst r0.
        by apply createArtifactVersion_returns in Hcreate as [-> _].
      * intros v Hv. apply list_elem_of_singleton in Hv. by subst v.
  - destruct Hcall as [(v & Hb & _)|(e & Hb & ->)]; [done|].
    injection Hb as _ <-.
    exists (versions_of a db), []. rewrite app_nil_r.
    repeat split; [done | intros; by apply elem_of_nil in H].
Qed.

(** C3: the numbers returned by successive calls of [createArtifactVersion]
    on an artifact go up by exactly one; the number a call returns is the
    greatest number the artifact had, plus one; and [restoreArtifactVersion]
    keeps the numbers the artifact had, in place, adding at most one row,
    whose number the artifact did not have. *)
Theorem version_numbers_append_only (a : string) (calls : list CreateCall)
    (db db' : Db) (vs : list ArtifactVersion.t) :
  create_versions sha256_hex a calls db = Some (vs, db') ->
  (forall (i : nat) (v w : ArtifactVersion.t),
     vs !! i = Some v -> vs !! S i = Some w ->
     ArtifactVersion.version w = (ArtifactVersion.version v + 1)%Z)
  /\ (forall (env : Env) (title content : string) (msg : option string)
        (author : string) (parent : option string) (db1 db2 : Db)
        (v : ArtifactVersion.t),
        createArtifactVersion sha256_hex env a title content msg author parent
                              db1 = (Returns v, db2) ->
        succ_of_greatest (ArtifactVersion.version v)
          (map ArtifactVersion.version (versions_of a db1)))
  /\ (forall (env : Env) (versionId userId : string) (db1 db2 : Db)
        (r : Result ArtifactVersion.t),
        restoreArtifactVersion sha256_hex env a versionId userId db1 = (r, db2) ->
        length (versions_of a db1) <= length (versions_of a db2)
        /\ (map ArtifactVersion.version (versions_of a db1)
            `prefix_of` map ArtifactVersion.version (versions_of a db2))
        /\ forall v, r = Returns v ->
             (ArtifactVersion.version v
                ∉ map ArtifactVersion.version (versions_of a db1))
             /\ length (versions_of a db2) = S (length (versions_of a db1))).
Proof.
  intros Hrun. split; [|split].
  - by destruct (create_versions_numbers _ _ _ _ _ Hrun).
  - intros env title content msg author parent db1 db2 v Hcall.
    destruct (versions_of_after_create _ _ _ _ _ _ _ _ _ _ _ Hcall) as [_ ->].
    apply nextVersion_succ_of_greatest.
  - intros env versionId userId db1 db2 r Hcall.
    apply restoreArtifactVersion_rows in Hcall
      as (former & added & Hrows & Hformer & Hret & Hadded).
    assert (length former = length (versions_of a db1)) as Hlen.
    { apply (f_equal length) in Hformer. by rewrite !length_map in Hformer. }
    split; [rewrite Hrows, length_app; lia|]. split.
    + rewrite Hrows, map_app, Hformer. by eexists.
    + intros v Hv. specialize (Hret v Hv). subst added. split.
      * rewrite (Hadded v) by apply list_elem_of_here.
        apply nextVersion_fresh.
      * rewrite Hrows, length_app. simpl. lia.
Qed.

End SequenceFacts.

(** ** Restoring a version, creating a branch *)

Section RestoreFacts.

Variable sha256_hex : string -> string.

Lemma int4_true (z : Z) :
  (-2147483648 <= z <= 2147483647)%Z -> int4 z = true.
Proof. intros Hz. unfold int4. apply andb_true_iff. split; lia. Qed.

Lemma insert_artifactVersion_accepted (row : ArtifactVersion.t) (db : Db) :
  ArtifactVersion.id row ∉ map ArtifactVersion.id (artifactVersion db) ->
  ArtifactVersion.artifactId row ∈ map Document.id (document db) ->
  (-2147483648 <= ArtifactVersion.version row <= 2147483647)%Z ->
  ArtifactVersion.commitHash row
    ∉ map ArtifactVersion.commitHash (artifactVersion db) ->
  ArtifactVersion.parentVersionId row = None ->
  ArtifactVersion.authorId row ∈ user db ->
  insert_artifactVersion row db
  = Some (mkDb (document db) (user db) (artifactVersion db ++ [row])
               (artifactBranch db) (artifactChangeLog db)).
Proof.
  intros Hid Hdoc Hint Hhash Hparent Huser. unfold insert_artifactVersion.
  accept_row. by rewrite (int4_true _ Hint), Hparent.
Qed.

Lemma insert_artifactChangeLog_accepted (row : ArtifactChangeLog.t) (db : Db) :
  ArtifactChangeLog.id row ∉ map ArtifactChangeLog.id (artifactChangeLog db) ->
  ArtifactChangeLog.artifactId row ∈ map Document.id (document db) ->
  (forall vid, ArtifactChangeLog.versionId row = Some vid ->
               vid ∈ map ArtifactVersion.id (artifactVersion db)) ->
  ArtifactChangeLog.userId row ∈ user db ->
  insert_artifactChangeLog row db
  = Some (mkDb (document db) (user db) (artifactVersion db)
               (artifactBranch db) (artifactChangeLog db ++ [row])).
Proof.
  intros Hid Hdoc Hversion Huser. unfold insert_artifactChangeLog.
  accept_row.
  destruct (ArtifactChangeLog.versionId row) as [vid|]; simpl; [|done].
  by rewrite (proj2 (mem_true _ _) (Hversion vid eq_refl)).
Qed.

Lemma update_document_ids (a title content : string) (db : Db) :
  map Document.id (document (update_document a title content db))
  = map Document.id (document db).
Proof.
  simpl. rewrite List.map_map. apply List.map_ext.
  intros d. by destruct (String.eqb (Document.id d) a).
Qed.

(** When the new rows break no constraint, [createArtifactVersion] returns
    the new version. *)
Lemma createArtifactVersion_accepted (env : Env) (a title content : string)
    (msg : option string) (author : string) (db : Db) :
  versionUuid env ∉ map ArtifactVersion.id (artifactVersion db) ->
  changeLogUuid env ∉ map ArtifactChangeLog.id (artifactChangeLog db) ->
  generateCommitHash sha256_hex env a (nextVersion a db) content
    ∉ map ArtifactVersion.commitHash (artifactVersion db) ->
  (-2147483648 <= nextVersion a db <= 2147483647)%Z ->
  a ∈ map Document.id (document db) ->
  author ∈ user db ->
  exists (v : ArtifactVersion.t) (db' : Db),
    createArtifactVersion sha256_hex env a title content msg author None db
    = (Returns v, db').
Proof.
  intros Hvid Hlid Hhash Hint Hdoc Huser.
  unfold createArtifactVersion, try_catch, bind, db_select, db_update,
    db_insert, resolve.
  rewrite insert_artifactVersion_accepted; try done.
  - unfold logArtifactChange, try_catch, db_insert.
    rewrite insert_artifactChangeLog_accepted; try done.
    + by eexists _, _.
    + by rewrite update_document_ids.
    + intros vid [= <-]. simpl. rewrite map_app. apply elem_of_app. right.
      apply list_elem_of_here.
  - rewrite deactivate_active_rows.
    by rewrite (map_deactivated _ ArtifactVersion.id) by apply deactivated_id.
  - rewrite deactivate_active_rows.
    by rewrite (map_deactivated _ ArtifactVersion.commitHash)
      by apply deactivated_commitHash.
Qed.

Lemma select_version_found (db : Db) (t : ArtifactVersion.t) :
  NoDup (map ArtifactVersion.id (artifactVersion db)) ->
  t ∈ artifactVersion db ->
  select_version (ArtifactVersion.id t) (ArtifactVersion.artifactId t) db
  = Some t.
Proof.
  unfold select_version.
  induction (artifactVersion db) as [|x rows IH]; intros Hnodup Hin.
  - by apply elem_of_nil in Hin.
  - simpl in Hnodup. apply NoDup_cons in Hnodup as [Hx Hrows].
    apply elem_of_cons in Hin as [->|Hin].
    + simpl. by rewrite !String.eqb_refl.
    + simpl.
      destruct (String.eqb_spec (ArtifactVersion.id x) (ArtifactVersion.id t))
        as [Heq|Hne]; simpl.
      * destruct Hx. rewrite Heq.
        apply list_elem_of_In, in_map, list_elem_of_In, Hin.
      * by apply IH.
Qed.

End RestoreFacts.

Section RestoreClaim.

Variable sha256_hex : string -> string.

(** C6, as the code has it: restoring an existing version of an artifact,
    when the database accepts the new rows (the user is one of the user
    table, the artifact a document, the ids drawn and the commit hash not
    yet there, the next number within the integer column), returns a new
    version with the content and title of the target and the message
    "Restored from version n"; the former rows all stay, and the artifact
    has one version more. *)
Theorem restoreArtifactVersion_appends (env : Env)
    (a versionId userId : string) (db : Db) (t : ArtifactVersion.t) :
  NoDup (map ArtifactVersion.id (artifactVersion db)) ->
  t ∈ artifactVersion db ->
  ArtifactVersion.id t = versionId ->
  ArtifactVersion.artifactId t = a ->
  versionUuid env ∉ map ArtifactVersion.id (artifactVersion db) ->
  changeLogUuid env ∉ map ArtifactChangeLog.id (artifactChangeLog db) ->
  generateCommitHash sha256_hex env a (nextVersion a db)
                     (ArtifactVersion.content t)
    ∉ map ArtifactVersion.commitHash (artifactVersion db) ->
  (-2147483648 <= nextVersion a db <= 2147483647)%Z ->
  a ∈ map Document.id (document db) ->
  userId ∈ user db ->
  exists (v : ArtifactVersion.t) (db' : Db),
    restoreArtifactVersion sha256_hex env a versionId userId db
    = (Returns v, db')
    /\ ArtifactVersion.content v = ArtifactVersion.content t
    /\ ArtifactVersion.title v = ArtifactVersion.title t
    /\ ArtifactVersion.commitMessage v
       = Some ("Restored from version "
               +:+ decimal (ArtifactVersion.version t))
    /\ artifactVersion db' = map (deactivated a) (artifactVersion db) ++ [v]
    /\ map ArtifactVersion.id (artifactVersion db')
       = map ArtifactVersion.id (artifactVersion db) ++ [ArtifactVersion.id v]
    /\ map ArtifactVersion.content (artifactVersion db')
       = map ArtifactVersion.content (artifactVersion db)
         ++ [ArtifactVersion.content v]
    /\ length (versions_of a db') = S (length (versions_of a db)).
Proof.
  intros Hnodup Hin <- <- Hvid Hlid Hhash Hint Hdoc Huser.
  destruct (createArtifactVersion_accepted sha256_hex env
              (ArtifactVersion.artifactId t) (ArtifactVersion.title t)
              (ArtifactVersion.content t)
              (Some ("Restored from version "
                     +:+ decimal (ArtifactVersion.version t)))
              userId db Hvid Hlid Hhash Hint Hdoc Huser) as (v & db' & Hcreate).
  exists v, db'. unfold restoreArtifactVersion, try_catch, bind, db_select.
  rewrite (select_version_found db t Hnodup Hin), Hcreate.
  destruct (versions_of_after_create _ _ _ _ _ _ _ _ _ _ _ Hcreate) as [Hrows _].
  apply createArtifactVersion_returns in Hcreate as [Hv Hall].
  split; [done|]. rewrite Hall, Hrows, !map_app, !length_app, !length_map.
  rewrite (map_deactivated _ ArtifactVersion.id) by apply deactivated_id.
  rewrite (map_deactivated _ ArtifactVersion.content)
    by apply deactivated_content.
  rewrite Hv. simpl. repeat split; lia.
Qed.

End RestoreClaim.


(** ** The claims on the example database *)

(** Membership in a list of literal strings, by evaluation. *)
Ltac by_evaluation :=
  first [apply mem_true; reflexivity | apply mem_false; reflexivity].

Lemma create_versions_one_active_witness :
  exists (vs : list ArtifactVersion.t) (db' : Db),
    create_versions Scenario.plain "doc" Scenario.two_calls Scenario.fresh_db
    = Some (vs, db')
    /\ exists v : ArtifactVersion.t,
         last vs = Some v /\ active_versions "doc" db' = [v]
         /\ ArtifactVersion.isActive v = true.
Proof.
  eexists _, _. split; [vm_compute; reflexivity|].
  apply (create_versions_one_active Scenario.plain "doc" Scenario.two_calls
           Scenario.fresh_db); [discriminate | vm_compute; reflexivity].
Defined.

Lemma version_numbers_append_only_witness :
  exists vs : list ArtifactVersion.t,
    create_versions Scenario.plain "doc" Scenario.two_calls Scenario.fresh_db
    = Some (vs, Scenario.two_versions_db)
    /\ map ArtifactVersion.version vs = [1%Z; 2%Z]
    /\ forall (i : nat) (v w : ArtifactVersion.t),
         vs !! i = Some v -> vs !! S i = Some w ->
         ArtifactVersion.version w = (ArtifactVersion.version v + 1)%Z.
Proof.
  eexists. split; [vm_compute; reflexivity|]. split; [reflexivity|].
  exact (proj1 (version_numbers_append_only Scenario.plain "doc"
                  Scenario.two_calls Scenario.fresh_db
                  Scenario.two_versions_db _ eq_refl)).
Defined.

(** The end-to-end scenario: after versions 1 (content "A") and 2 (content
    "B"), restoring version 1 gives a third version with content "A". *)
Lemma restoreArtifactVersion_appends_witness :
  exists (v : ArtifactVersion.t) (db' : Db),
    restoreArtifactVersion Scenario.plain (Scenario.env_at 3000 "3") "doc"
                           "version-1" "alice" Scenario.two_versions_db
    = (Returns v, db')
    /\ ArtifactVersion.content v = "A"
    /\ ArtifactVersion.commitMessage v = Some "Restored from version 1"
    /\ length (versions_of "doc" Scenario.two_versions_db) = 2
    /\ length (versions_of "doc" db') = 3.
Proof.
  destruct (restoreArtifactVersion_appends Scenario.plain
              (Scenario.env_at 3000 "3") "doc" "version-1" "alice"
              Scenario.two_versions_db Scenario.first_version)
    as (v & db' & Hcall & Hcontent & _ & Hmsg & _ & _ & _ & Hlen).
  - vm_compute.
    repeat (apply NoDup_cons; split; [by_evaluation|]).
    apply NoDup_nil_2.
  - apply list_elem_of_here.
  - reflexivity.
  - reflexivity.
  - by_evaluation.
  - by_evaluation.
  - by_evaluation.
  - vm_compute. split; discriminate.
  - by_evaluation.
  - by_evaluation.
  - exists v, db'. repeat split; try done.
Defined.

(** C6 fails as stated: version 1 of the artifact is there, but restoring
    it in the name of someone who is no user throws, appends no version and
    leaves the artifact without an active one. *)
Lemma restore_by_stranger_counterexample :
  Scenario.first_version ∈ artifactVersion Scenario.two_versions_db
  /\ fst (restoreArtifactVersion Scenario.plain (Scenario.env_at 3000 "3")
            "doc" "version-1" "mallory" Scenario.two_versions_db)
     = Throws (SDKError (mkChatSDKError "bad_request:database"
                                        "Failed to restore artifact version"))
  /\ length (versions_of "doc"
               (snd (restoreArtifactVersion Scenario.plain
                       (Scenario.env_at 3000 "3") "doc" "version-1" "mallory"
                       Scenario.two_versions_db)))
     = length (versions_of "doc" Scenario.two_versions_db)
  /\ active_versions "doc"
       (snd (restoreArtifactVersion Scenario.plain (Scenario.env_at 3000 "3")
               "doc" "version-1" "mallory" Scenario.two_versions_db))
     = [].
Proof. split; [apply list_elem_of_here|]. repeat split. Qed.



(** * Further properties *)

(** ** What a diff tells *)

Section DiffDetermines.

Lemma modification_at_line (oldLines newLines : list string) (i : nat)
    (m : Modification) :
  modification_at oldLines newLines i = Some m -> line m = i + 1.
Proof.
  unfold modification_at.
  destruct (oldLines !! i), (newLines !! i); try done.
  destruct (String.eqb _ _); [done|]. by intros [= <-].
Qed.

(** With the old lines known, the three lists of a diff fix the new
    lines. *)
Lemma diff_lists_determine_new (o n n' : list string) :
  drop (length o) n = drop (length o) n' ->
  drop (length n) o = drop (length n') o ->
  omap (modification_at o n) (seq 0 (Nat.max (length o) (length n)))
  = omap (modification_at o n') (seq 0 (Nat.max (length o) (length n'))) ->
  n = n'.
Proof.
  intros Hadd Hdel Hmod.
  assert (length n = length n') as Hlen.
  { apply (f_equal length) in Hadd. apply (f_equal length) in Hdel.
    rewrite !length_drop in Hadd, Hdel. lia. }
  apply list_eq. intros i.
  destruct (decide (i < length n)) as [Hi|Hi].
  2: { rewrite !(proj2 (lookup_ge_None _ _)) by lia. done. }
  destruct (decide (length o <= i)) as [Ho|Ho].
  { replace i with (length o + (i - length o)) by lia.
    rewrite <- !lookup_drop. by rewrite Hadd. }
  destruct (lookup_lt_is_Some_2 o i) as [x Hx]; [lia|].
  destruct (lookup_lt_is_Some_2 n i) as [y Hy]; [lia|].
  destruct (lookup_lt_is_Some_2 n' i) as [y' Hy']; [lia|].
  rewrite Hy, Hy'. f_equal.
  assert (forall (a b : list string) (z z' : string),
            omap (modification_at o a) (seq 0 (Nat.max (length o) (length a)))
            = omap (modification_at o b) (seq 0 (Nat.max (length o) (length b))) ->
            a !! i = Some z -> b !! i = Some z' -> x <> z -> z' = z) as Hstep.
  { intros a b z z' Heq Hz Hz' Hne.
    assert (mkModification (i + 1) x z
            ∈ omap (modification_at o b)
                   (seq 0 (Nat.max (length o) (length b)))) as Hin.
    { rewrite <- Heq. apply elem_of_modifications; [lia|].
      by exists i, x, z. }
    apply elem_of_modifications in Hin; [|lia].
    destruct Hin as (j & x' & z'' & Hx' & Hz'' & _ & [= Hj -> ->]).
    assert (j = i) as -> by lia. congruence. }
  destruct (decide (x = y)) as [<-|Hxy].
  - destruct (decide (x = y')) as [<-|Hxy']; [done|].
    by apply (Hstep n' n y' x).
  - symmetry. by apply (Hstep n n' y y').
Qed.

Lemma omap_nil_iff {A B : Type} (f : A -> option B) (l : list A) :
  omap f l = [] <-> forall x, x ∈ l -> f x = None.
Proof.
  induction l as [|a l IH]; simpl.
  - split; [intros _ x Hx; by apply elem_of_nil in Hx | done].
  - destruct (f a) as [b|] eqn:Hfa.
    + split; [done|]. intros H. specialize (H a (list_elem_of_here _ _)).
      congruence.
    + rewrite IH. split.
      * intros H x Hx. apply elem_of_cons in Hx as [->|Hx]; auto.
      * intros H x Hx. apply H. by apply list_elem_of_further.
Qed.

Lemma modification_at_same (lines : list string) (i : nat) :
  modification_at lines lines i = None.
Proof.
  unfold modification_at. destruct (lines !! i); [|done].
  by rewrite String.eqb_refl.
Qed.

Lemma split_lines_inj (a b : string) : split_lines a = split_lines b -> a = b.
Proof.
  intros H. rewrite <- (join_split_lines a), <- (join_split_lines b).
  by rewrite H.
Qed.

End DiffDetermines.

(** X1: a diff lists nothing exactly when the two contents are the same. *)
Theorem generateDiff_nothing_iff_equal (oldContent newContent : string) :
  (additions (generateDiff oldContent newContent) = []
   /\ deletions (generateDiff oldContent newContent) = []
   /\ modifications (generateDiff oldContent newContent) = [])
  <-> oldContent = newContent.
Proof.
  rewrite generateDiff_unfold. simpl. split.
  - intros (Hadd & Hdel & Hmod). apply split_lines_inj. symmetry.
    apply (diff_lists_determine_new (split_lines oldContent)).
    + by rewrite Hadd, drop_all.
    + by rewrite Hdel, drop_all.
    + rewrite Hmod. symmetry. apply omap_nil_iff. intros i _.
      apply modification_at_same.
  - intros <-. rewrite drop_all. repeat split.
    apply omap_nil_iff. intros i _. apply modification_at_same.
Qed.

(** X2: with the old content known, a diff fixes the new content: two new
    contents with the same diff against one old content are equal. *)
Theorem generateDiff_determines_new (oldContent new1 new2 : string) :
  generateDiff oldContent new1 = generateDiff oldContent new2 ->
  new1 = new2.
Proof.
  rewrite !generateDiff_unfold. simpl. intros [= Hadd Hdel Hmod _ _ _].
  apply split_lines_inj.
  by apply (diff_lists_determine_new (split_lines oldContent)).
Qed.

Lemma generateDiff_determines_new_witness :
  generateDiff "a" ("a" +:+ nl +:+ "b") = generateDiff "a" ("a" +:+ nl +:+ "b")
  /\ "a" +:+ nl +:+ "b" = "a" +:+ nl +:+ "b".
Proof.
  split; [reflexivity|].
  exact (generateDiff_determines_new "a" ("a" +:+ nl +:+ "b")
           ("a" +:+ nl +:+ "b") eq_refl).
Defined.

Section DiffSwap.

Lemma omap_fmap_pointwise {A B : Type} (f g : A -> option B) (h : B -> B)
    (l : list A) :
  (forall x, g x = h <$> f x) -> omap g l = h <$> omap f l.
Proof.
  intros Hg. induction l as [|a l IH]; [done|].
  simpl. rewrite Hg. destruct (f a); simpl; [f_equal|]; exact IH.
Qed.

Lemma modification_at_swap (oldLines newLines : list string) (i : nat) :
  modification_at newLines oldLines i
  = swap_modification <$> modification_at oldLines newLines i.
Proof.
  unfold modification_at.
  destruct (oldLines !! i) as [x|], (newLines !! i) as [y|]; try done.
  rewrite (String.eqb_sym y x). by destruct (String.eqb x y).
Qed.

End DiffSwap.

(** X3: read in the other direction, a diff has its additions and
    deletions exchanged and each modification turned around. *)
Theorem generateDiff_swap (a b : string) :
  additions (generateDiff b a) = deletions (generateDiff a b)
  /\ deletions (generateDiff b a) = additions (generateDiff a b)
  /\ modifications (generateDiff b a)
     = swap_modification <$> modifications (generateDiff a b).
Proof.
  rewrite !generateDiff_unfold. simpl. repeat split.
  rewrite (Nat.max_comm (length (split_lines b))).
  apply omap_fmap_pointwise. intros i. apply modification_at_swap.
Qed.

Section SimilarityAndDiff.

Lemma identical_positions_full (lines1 lines2 : list string) :
  identical_positions lines1 lines2
  = Nat.max (length lines1) (length lines2) ->
  lines1 = lines2.
Proof.
  revert lines2. induction lines1 as [|l1 rest1 IH]; intros [|l2 rest2];
    simpl; try done.
  pose proof (identical_positions_le rest1 rest2) as Hle.
  destruct (String.eqb_spec l1 l2) as [->|Hne]; intros Hfull; [|lia].
  f_equal. apply IH. lia.
Qed.

Lemma quotient_one (n d : nat) : d <> 0 -> (quotient n d == 1)%Q <-> n = d.
Proof.
  intros Hd. unfold quotient, Qeq. simpl.
  assert (Z.pos (Pos.of_nat d) = Z.of_nat d) as ->.
  { rewrite <- positive_nat_Z. f_equal. by apply Nat2Pos.id. }
  lia.
Qed.

(** Below the shorter line count every position either matches or is a
    modification. *)
Lemma matches_and_modifications (lines1 lines2 : list string) (k : nat) :
  k <= Nat.min (length lines1) (length lines2) ->
  foldl (similarity_iteration lines1 lines2) 0 (seq 0 k)
  + length (omap (modification_at lines1 lines2) (seq 0 k)) = k.
Proof.
  induction k as [|k IH]; intros Hk; [done|].
  rewrite seq_S, foldl_app, omap_app, length_app. simpl.
  destruct (lookup_lt_is_Some_2 lines1 k) as [x Hx]; [lia|].
  destruct (lookup_lt_is_Some_2 lines2 k) as [y Hy]; [lia|].
  specialize (IH ltac:(lia)).
  set (matching := foldl _ 0 (seq 0 k)) in *.
  set (modified := length (omap _ (seq 0 k))) in *.
  unfold similarity_iteration, modification_at. rewrite Hx, Hy. simpl.
  destruct (String.eqb x y); simpl; lia.
Qed.

End SimilarityAndDiff.

(** X4: two contents have similarity 1 exactly when they are equal. *)
Theorem calculateSimilarity_one_iff_equal (a b : string) :
  (calculateSimilarity a b == 1)%Q <-> a = b.
Proof.
  rewrite calculateSimilarity_unfold.
  pose proof (split_lines_length a) as Ha.
  rewrite quotient_one by lia. split.
  - intros Hfull. apply split_lines_inj. by apply identical_positions_full.
  - intros <-. by rewrite identical_positions_refl, Nat.max_id.
Qed.

(** X5: similarity and diff count the same positions: the matching lines
    are the positions both contents have, less the modifications the diff
    reports. *)
Theorem calculateSimilarity_from_diff (a b : string) :
  calculateSimilarity a b
  = quotient (Nat.min (length (split_lines a)) (length (split_lines b))
              - modifiedLines (stats (generateDiff a b)))
             (Nat.max (length (split_lines a)) (length (split_lines b)))
  /\ modifiedLines (stats (generateDiff a b))
     <= Nat.min (length (split_lines a)) (length (split_lines b)).
Proof.
  rewrite calculateSimilarity_unfold, generateDiff_unfold. simpl.
  rewrite modifications_upto_min.
  pose proof (matches_and_modifications (split_lines a) (split_lines b)
                _ (Nat.le_refl _)) as Hsum.
  rewrite similarity_loop, identical_positions_take in Hsum by done.
  split; [f_equal|]; lia.
Qed.

(** ** The loop of [mergeContent], any three contents *)

Section MergeLoop.

Variables baseLines currentLines incomingLines : list string.

Lemma merge_loop_invariant (k : nat) :
  foldl (merge_iteration baseLines currentLines incomingLines)
        (mkMergeAcc [] []) (seq 0 k)
  = mkMergeAcc
      (omap (conflict_at baseLines currentLines incomingLines) (seq 0 k))
      (concat (merged_at baseLines currentLines incomingLines <$> seq 0 k)).
Proof.
  induction k as [|k IH]; [done|].
  rewrite seq_S, foldl_app, IH, omap_app, fmap_app, concat_app. simpl.
  unfold merge_iteration, conflict_at, merged_at. simpl.
  destruct (line_eqb (currentLines !! k) (incomingLines !! k));
    [by rewrite !app_nil_r|].
  destruct (line_eqb (currentLines !! k) (baseLines !! k)
            && negb (line_eqb (incomingLines !! k) (baseLines !! k)));
    [by rewrite !app_nil_r|].
  destruct (line_eqb (incomingLines !! k) (baseLines !! k)
            && negb (line_eqb (currentLines !! k) (baseLines !! k)));
    by rewrite !app_nil_r.
Qed.

End MergeLoop.

Lemma line_eqb_eq (a b : option string) : line_eqb a b = true <-> a = b.
Proof.
  destruct a as [x|], b as [y|]; simpl; try (split; done).
  rewrite String.eqb_eq. split; congruence.
Qed.

Lemma line_eqb_neq (a b : option string) : line_eqb a b = false <-> a <> b.
Proof.
  rewrite <- line_eqb_eq. destruct (line_eqb a b); split; done.
Qed.

(** The result of [mergeContent], without the loop. *)
Lemma mergeContent_unfold (b c n : string) :
  mergeContent b c n
  = let found :=
      omap (conflict_at (split_lines b) (split_lines c) (split_lines n))
           (seq 0 (Nat.max (Nat.max (length (split_lines b))
                                    (length (split_lines c)))
                           (length (split_lines n)))) in
    mkMergeResult
      (Nat.eqb (length found) 0)
      (Some (join_lines
               (concat (merged_at (split_lines b) (split_lines c)
                                  (split_lines n)
                        <$> seq 0 (Nat.max (Nat.max (length (split_lines b))
                                                    (length (split_lines c)))
                                           (length (split_lines n)))))))
      (if Nat.ltb 0 (length found) then Some found else None).
Proof. unfold mergeContent. simpl. by rewrite merge_loop_invariant. Qed.

(** No conflict at an index: two of the three lines there agree. *)
Lemma conflict_at_None (B C N : list string) (i : nat) :
  conflict_at B C N i = None
  <-> C !! i = N !! i \/ C !! i = B !! i \/ N !! i = B !! i.
Proof.
  unfold conflict_at. simpl.
  destruct (line_eqb (C !! i) (N !! i)) eqn:Hcn.
  { apply line_eqb_eq in Hcn. split; auto. }
  destruct (line_eqb (C !! i) (B !! i)) eqn:Hcb.
  { apply line_eqb_eq in Hcb. apply line_eqb_neq in Hcn.
    destruct (line_eqb (N !! i) (B !! i)) eqn:Hnb.
    - apply line_eqb_eq in Hnb. congruence.
    - simpl. split; auto. }
  destruct (line_eqb (N !! i) (B !! i)) eqn:Hnb; simpl.
  { apply line_eqb_eq in Hnb. split; auto. }
  apply line_eqb_neq in Hcn, Hcb, Hnb. split; [done|].
  intros [?|[?|?]]; done.
Qed.

Lemma conflict_at_Some (B C N : list string) (i : nat) (k : MergeConflict) :
  conflict_at B C N i = Some k
  <-> C !! i <> N !! i /\ C !! i <> B !! i /\ N !! i <> B !! i
      /\ k = mkMergeConflict (i + 1) (or_empty (C !! i)) (or_empty (N !! i))
                             (B !! i).
Proof.
  destruct (conflict_at B C N i) as [k'|] eqn:Hk.
  - assert (conflict_at B C N i <> None) as Hnot by congruence.
    rewrite conflict_at_None in Hnot.
    unfold conflict_at in Hk. simpl in Hk.
    repeat match type of Hk with
           | (if ?c then _ else _) = _ => destruct c; [done|]
           end.
    injection Hk as <-. split.
    + intros [= <-]. repeat split; intros ?; apply Hnot; auto.
    + by intros (_ & _ & _ & ->).
  - apply conflict_at_None in Hk. split; [done|].
    intros (? & ? & ? & _). destruct Hk as [?|[?|?]]; done.
Qed.

(** X6: a merge succeeds exactly when, at every line position, at least
    two of base, current and incoming have the same line (or the same lack
    of one); its conflicts are the positions where the three differ from
    one another, numbered from 1, with an absent line given as empty. *)
Theorem mergeContent_conflicts_where_all_differ (b c n : string) :
  (success (mergeContent b c n) = true
   <-> forall i : nat,
         split_lines c !! i = split_lines n !! i
         \/ split_lines c !! i = split_lines b !! i
         \/ split_lines n !! i = split_lines b !! i)
  /\ (success (mergeContent b c n) = true
      <-> conflicts (mergeContent b c n) = None)
  /\ forall k : MergeConflict,
       k ∈ conflict_list (mergeContent b c n)
       <-> exists i : nat,
             split_lines c !! i <> split_lines n !! i
             /\ split_lines c !! i <> split_lines b !! i
             /\ split_lines n !! i <> split_lines b !! i
             /\ k = mkMergeConflict (i + 1) (or_empty (split_lines c !! i))
                      (or_empty (split_lines n !! i)) (split_lines b !! i).
Proof.
  rewrite mergeContent_unfold. cbv zeta.
  set (B := split_lines b). set (C := split_lines c). set (N := split_lines n).
  set (M := Nat.max (Nat.max (length B) (length C)) (length N)).
  set (found := omap (conflict_at B C N) (seq 0 M)).
  unfold conflict_list. simpl.
  assert (forall i, M <= i -> conflict_at B C N i = None) as Hbeyond.
  { intros i Hi. apply conflict_at_None. left.
    rewrite !(proj2 (lookup_ge_None _ _)); [done | lia | lia]. }
  assert (forall k, k ∈ found <-> exists i, conflict_at B C N i = Some k)
    as Hfound.
  { intros k. unfold found. rewrite list_elem_of_omap. split.
    - intros (i & _ & Hi). by exists i.
    - intros (i & Hi). exists i. split; [|done]. apply elem_of_seq.
      destruct (decide (i < M)); [lia|]. rewrite Hbeyond in Hi by lia. done. }
  split; [|split].
  - rewrite Nat.eqb_eq, length_zero_iff_nil. unfold found.
    rewrite omap_nil_iff. split.
    + intros Hnone i. apply conflict_at_None.
      destruct (decide (i < M)); [|apply Hbeyond; lia].
      apply Hnone, elem_of_seq. lia.
    + intros Hagree i _. by apply conflict_at_None.
  - destruct found as [|k0 rest]; simpl; split; done.
  - intros k.
    assert (k ∈ default [] (if 0 <? length found then Some found else None)
            <-> k ∈ found) as ->.
    { by destruct found as [|k0 rest]. }
    rewrite Hfound. apply exist_proper. intros i. apply conflict_at_Some.
Qed.

Lemma conflict_at_swap (B C N : list string) (i : nat) :
  conflict_at B N C i = swap_conflict <$> conflict_at B C N i.
Proof.
  destruct (conflict_at B C N i) as [k|] eqn:Hk; simpl.
  - apply conflict_at_Some in Hk as (Hcn & Hcb & Hnb & ->).
    apply conflict_at_Some. repeat split; try done; congruence.
  - apply conflict_at_None in Hk. apply conflict_at_None.
    destruct Hk as [?|[?|?]]; auto.
Qed.

(** X7: exchanging the two sides of a merge keeps its success and turns
    each conflict around. *)
Theorem mergeContent_sides_exchanged (b c n : string) :
  success (mergeContent b n c) = success (mergeContent b c n)
  /\ conflict_list (mergeContent b n c)
     = swap_conflict <$> conflict_list (mergeContent b c n).
Proof.
  rewrite !mergeContent_unfold. cbv zeta. unfold conflict_list. simpl.
  replace (Nat.max (Nat.max (length (split_lines b)) (length (split_lines n)))
                   (length (split_lines c)))
    with (Nat.max (Nat.max (length (split_lines b)) (length (split_lines c)))
                  (length (split_lines n))) by lia.
  rewrite (omap_fmap_pointwise _ _ swap_conflict _
             (conflict_at_swap (split_lines b) (split_lines c)
                               (split_lines n))).
  rewrite length_fmap. split; [done|].
  by destruct (omap _ _).
Qed.

Section OneSidedMerge.

Lemma concat_singletons {A B : Type} (g : A -> B) (f : A -> list B)
    (l : list A) :
  (forall x, f x = [g x]) -> concat (f <$> l) = g <$> l.
Proof.
  intros Hf. induction l as [|a l IH]; [done|].
  simpl. rewrite Hf. simpl. f_equal. exact IH.
Qed.

Lemma merged_at_incoming_is_base (B C : list string) (i : nat) :
  merged_at B C B i = [or_empty (C !! i)].
Proof.
  unfold merged_at. simpl.
  destruct (line_eqb (C !! i) (B !! i)) eqn:Hcb; [done|].
  rewrite line_eqb_refl. done.
Qed.

Lemma merged_at_current_is_base (B N : list string) (i : nat) :
  merged_at B B N i = [or_empty (N !! i)].
Proof.
  unfold merged_at. simpl.
  destruct (line_eqb (B !! i) (N !! i)) eqn:Hbn.
  - apply line_eqb_eq in Hbn. by rewrite Hbn.
  - rewrite line_eqb_refl, (line_eqb_sym (N !! i)), Hbn. done.
Qed.

(** The merged content when every index gives the line of one side. *)
Lemma merged_content_of_side (B S : list string) :
  S <> [] ->
  join_lines ((fun i => or_empty (S !! i))
              <$> seq 0 (Nat.max (length B) (length S)))
  = join_lines S +:+ newlines (length B - length S).
Proof.
  intros HS.
  replace (Nat.max (length B) (length S))
    with (length S + (length B - length S)) by lia.
  by rewrite or_empty_lookup_seq, join_lines_padded.
Qed.

End OneSidedMerge.

(** X8: when one side is the base itself, the merge succeeds without
    conflict and gives the other side, followed by one newline for every
    line the base has beyond it. *)
Theorem mergeContent_one_side_unchanged (b c : string) :
  mergeContent b c b
  = mkMergeResult true
      (Some (c +:+ newlines (length (split_lines b) - length (split_lines c))))
      None
  /\ mergeContent b b c
     = mkMergeResult true
         (Some (c +:+ newlines (length (split_lines b)
                                - length (split_lines c))))
         None.
Proof.
  rewrite !mergeContent_unfold. cbv zeta.
  assert (forall l, omap (conflict_at (split_lines b) (split_lines c)
                                      (split_lines b)) l = []) as ->.
  { intros l. apply omap_nil_iff. intros i _. apply conflict_at_None. auto. }
  assert (forall l, omap (conflict_at (split_lines b) (split_lines b)
                                      (split_lines c)) l = []) as ->.
  { intros l. apply omap_nil_iff. intros i _. apply conflict_at_None. auto. }
  rewrite (concat_singletons _ _ _
             (merged_at_incoming_is_base (split_lines b) (split_lines c))).
  rewrite (concat_singletons _ _ _
             (merged_at_current_is_base (split_lines b) (split_lines c))).
  replace (Nat.max (Nat.max (length (split_lines b)) (length (split_lines c)))
                   (length (split_lines b)))
    with (Nat.max (length (split_lines b)) (length (split_lines c))) by lia.
  replace (Nat.max (Nat.max (length (split_lines b)) (length (split_lines b)))
                   (length (split_lines c)))
    with (Nat.max (length (split_lines b)) (length (split_lines c))) by lia.
  rewrite merged_content_of_side by apply split_lines_not_nil.
  by rewrite join_split_lines.
Qed.

(** ** Unified diffs *)

Section UnifiedDiffFacts.

Variables oldLines newLines : list string.

Lemma foldl_push_modification (mods : list Modification) (acc : HunkAcc)
    (k0 : nat) :
  (forall m, m ∈ mods ->
             oldLines !! (line m - 1) = Some (old m)
             /\ newLines !! (line m - 1) = Some (new m)) ->
  oldLineNum acc = k0 + 1 -> newLineNum acc = k0 + 1 ->
  foldl (push_modification oldLines newLines) acc mods
  = mkHunkAcc
      (hunk_lines acc
       ++ concat (imap (fun k m => modification_hunk (k0 + k) m) mods))
      (k0 + length mods + 1) (k0 + length mods + 1).
Proof.
  revert acc k0. induction mods as [|m mods IH]; intros acc k0 Hmods Hold Hnew.
  - destruct acc as [ls o n]. simpl in *. subst.
    rewrite app_nil_r. f_equal; lia.
  - cbn [foldl]. rewrite (IH _ (S k0)).
    + destruct (Hmods m (list_elem_of_here _ _)) as [Hmo Hmn].
      unfold push_modification. cbn [hunk_lines oldLineNum newLineNum].
      rewrite Hmo, Hmn, Hold, Hnew, <- app_assoc.
      cbn [imap concat length interpolate].
      unfold modification_hunk at 2. rewrite Nat.add_0_r.
      f_equal; [|lia|lia]. f_equal. cbn [app]. do 3 f_equal.
      f_equal. apply imap_ext. intros k x _. simpl.
      by rewrite Nat.add_succ_r.
    + intros m' Hm'. apply Hmods. by apply list_elem_of_further.
    + simpl. lia.
    + simpl. lia.
Qed.

Lemma foldl_push_addition (adds : list string) (acc : HunkAcc) (k0 : nat) :
  newLineNum acc = k0 + 1 ->
  foldl push_addition acc adds
  = mkHunkAcc
      (hunk_lines acc ++ concat (imap (fun k a => addition_hunk k0 k a) adds))
      (oldLineNum acc) (k0 + length adds + 1).
Proof.
  revert acc k0. induction adds as [|a adds IH]; intros acc k0 Hnew.
  - destruct acc as [ls o n]. simpl in *. subst.
    rewrite app_nil_r. f_equal; lia.
  - simpl. rewrite (IH _ (S k0)) by (simpl; lia).
    simpl. rewrite Hnew, <- app_assoc. simpl.
    unfold addition_hunk. rewrite Nat.add_0_r.
    f_equal; [|lia]. do 3 f_equal.
    f_equal. apply imap_ext. intros k x _. simpl.
    by replace (S (k0 + k + 1)) with (k0 + S k + 1) by lia.
Qed.

Lemma foldl_push_deletion (dels : list string) (acc : HunkAcc) (k0 : nat) :
  oldLineNum acc = k0 + 1 ->
  foldl push_deletion acc dels
  = mkHunkAcc
      (hunk_lines acc ++ concat (imap (fun k d => deletion_hunk k0 k d) dels))
      (k0 + length dels + 1) (newLineNum acc).
Proof.
  revert acc k0. induction dels as [|d dels IH]; intros acc k0 Hold.
  - destruct acc as [ls o n]. simpl in *. subst.
    rewrite app_nil_r. f_equal; lia.
  - simpl. rewrite (IH _ (S k0)) by (simpl; lia).
    simpl. rewrite Hold, <- app_assoc. simpl.
    unfold deletion_hunk. rewrite Nat.add_0_r.
    f_equal; [|lia]. do 3 f_equal.
    f_equal. apply imap_ext. intros k x _. simpl.
    by replace (S (k0 + k + 1)) with (k0 + S k + 1) by lia.
Qed.

End UnifiedDiffFacts.

(** A reported modification carries the two lines of its position. *)
Lemma modifications_carry_lines (oldContent newContent : string)
    (m : Modification) :
  m ∈ modifications (generateDiff oldContent newContent) ->
  split_lines oldContent !! (line m - 1) = Some (old m)
  /\ split_lines newContent !! (line m - 1) = Some (new m).
Proof.
  rewrite generateDiff_unfold. simpl. intros Hm.
  apply elem_of_modifications in Hm; [|lia].
  destruct Hm as (i & x & y & Hx & Hy & _ & ->). simpl.
  by replace (i + 1 - 1) with i by lia.
Qed.

Lemma unified_diff_lines_hunks (oldContent newContent : string)
    (oldLabel newLabel : option string) :
  unified_diff_lines oldContent newContent oldLabel newLabel
  = ["--- " +:+ default "a/file" oldLabel;
     "+++ " +:+ default "b/file" newLabel]
    ++ concat (imap modification_hunk
                    (modifications (generateDiff oldContent newContent)))
    ++ concat (imap (addition_hunk
                       (length (modifications
                                  (generateDiff oldContent newContent))))
                    (additions (generateDiff oldContent newContent)))
    ++ concat (imap (deletion_hunk
                       (length (modifications
                                  (generateDiff oldContent newContent))))
                    (deletions (generateDiff oldContent newContent))).
Proof.
  unfold unified_diff_lines. cbv zeta.
  rewrite (foldl_push_modification _ _ _ _ 0); try done.
  2: { intros m Hm. by apply modifications_carry_lines. }
  rewrite (foldl_push_addition _ _
             (length (modifications (generateDiff oldContent newContent))))
    by (simpl; lia).
  rewrite (foldl_push_deletion _ _
             (length (modifications (generateDiff oldContent newContent))))
    by (simpl; lia).
  simpl. by rewrite <- !app_assoc.
Qed.

(** X9: the lines of a unified diff, without the loops: the two header
    lines, then one three-line hunk per modification, then one two-line hunk
    per addition, then one per deletion.  The hunks are numbered by their
    rank, the [k]-th modification as line [k], whatever line it is about;
    additions and deletions count on from the number of modifications. *)
Theorem generateUnifiedDiff_hunks (oldContent newContent : string)
    (oldLabel newLabel : option string) :
  generateUnifiedDiff oldContent newContent oldLabel newLabel
  = join_lines
      (["--- " +:+ default "a/file" oldLabel;
        "+++ " +:+ default "b/file" newLabel]
       ++ concat (imap modification_hunk
                       (modifications (generateDiff oldContent newContent)))
       ++ concat (imap (addition_hunk
                          (length (modifications
                                     (generateDiff oldContent newContent))))
                       (additions (generateDiff oldContent newContent)))
       ++ concat (imap (deletion_hunk
                          (length (modifications
                                     (generateDiff oldContent newContent))))
                       (deletions (generateDiff oldContent newContent)))).
Proof.
  unfold generateUnifiedDiff. by rewrite unified_diff_lines_hunks.
Qed.

Lemma generateDiff_same (c : string) :
  generateDiff c c = mkDiffResult [] [] [] (mkDiffStats 0 0 0).
Proof.
  rewrite generateDiff_unfold. cbv zeta. rewrite drop_all.
  assert (omap (modification_at (split_lines c) (split_lines c))
               (seq 0 (Nat.max (length (split_lines c))
                               (length (split_lines c)))) = []) as ->.
  { apply omap_nil_iff. intros i _. apply modification_at_same. }
  done.
Qed.

Lemma unified_diff_lines_same (c : string)
    (oldLabel newLabel : option string) :
  unified_diff_lines c c oldLabel newLabel
  = ["--- " +:+ default "a/file" oldLabel;
     "+++ " +:+ default "b/file" newLabel].
Proof.
  unfold unified_diff_lines. cbv zeta. by rewrite generateDiff_same.
Qed.

(** X10: the unified diff of a content against itself is its two header
    lines and nothing else. *)
Theorem generateUnifiedDiff_same_content (c : string)
    (oldLabel newLabel : option string) :
  generateUnifiedDiff c c oldLabel newLabel
  = "--- " +:+ default "a/file" oldLabel +:+ nl
    +:+ "+++ " +:+ default "b/file" newLabel.
Proof.
  unfold generateUnifiedDiff. rewrite unified_diff_lines_same. simpl.
  by rewrite !string_app_assoc.
Qed.

(** ** Patches *)

Section PatchFacts.

Lemma indexOf_absent (x : string) (lines : list string) :
  x ∉ lines -> indexOf x lines = None.
Proof.
  induction lines as [|l rest IH]; [done|].
  intros Hx. apply not_elem_of_cons in Hx as [Hne Hrest]. simpl.
  destruct (String.eqb_spec l x) as [->|_]; [done|].
  by rewrite IH.
Qed.

(** A patch line that is neither a removal nor an insertion leaves the
    lines alone. *)
Lemma patch_iteration_context (acc : PatchAcc) (patchLine : string) :
  startsWith patchLine "-" = false ->
  startsWith patchLine "+" = false ->
  patched (patch_iteration acc patchLine) = patched acc.
Proof.
  intros Hminus Hplus. unfold patch_iteration. rewrite Hminus, Hplus.
  by destruct (_ && _).
Qed.

Lemma foldl_patch_context (patchLines : list string) (acc : PatchAcc) :
  (forall l, l ∈ patchLines ->
             startsWith l "-" = false /\ startsWith l "+" = false) ->
  patched (foldl patch_iteration acc patchLines) = patched acc.
Proof.
  revert acc. induction patchLines as [|l rest IH]; intros acc Hctx; [done|].
  cbn [foldl]. rewrite IH.
  - destruct (Hctx l (list_elem_of_here _ _)) as [Hminus Hplus].
    by apply patch_iteration_context.
  - intros l' Hl'. apply Hctx. by apply list_elem_of_further.
Qed.

(** From a cursor beyond the first line on, the first line stays. *)
Lemma patch_iteration_keeps_head (acc : PatchAcc) (patchLine h : string) :
  head (patched acc) = Some h -> 1 <= currentLine acc ->
  head (patched (patch_iteration acc patchLine)) = Some h
  /\ 1 <= currentLine (patch_iteration acc patchLine).
Proof.
  destruct acc as [[|h' t] cur]; [done|]. simpl. intros [= ->] Hcur.
  unfold patch_iteration. cbn [patched currentLine].
  destruct (startsWith patchLine "-").
  - unfold indexOf_from.
    destruct (indexOf (substring_1 patchLine) (drop cur (h :: t))) as [i|];
      [|done].
    cbn [patched currentLine]. split; [|done].
    unfold splice_out. destruct cur as [|cur]; [lia|]. done.
  - destruct (startsWith patchLine "+").
    + cbn [patched currentLine]. split; [|lia].
      unfold splice_in. destruct cur as [|cur]; [lia|]. done.
    + destruct (_ && _); cbn [patched currentLine]; split; try done; lia.
Qed.

Lemma foldl_patch_keeps_head (patchLines : list string) (acc : PatchAcc)
    (h : string) :
  head (patched acc) = Some h -> 1 <= currentLine acc ->
  head (patched (foldl patch_iteration acc patchLines)) = Some h.
Proof.
  revert acc. induction patchLines as [|l rest IH]; intros acc Hh Hcur; [done|].
  cbn [foldl].
  destruct (patch_iteration_keeps_head acc l h Hh Hcur) as [Hh' Hcur'].
  by apply IH.
Qed.

(** The lines of a joined list that starts with a single line. *)
Lemma split_join_single_line (l : string) (rest : list string) :
  single_line l ->
  exists tail, split_lines (join_lines (l :: rest)) = l :: tail
               /\ (rest = [] -> tail = [])
               /\ (rest <> [] -> tail = split_lines (join_lines rest)).
Proof.
  unfold single_line. intros Hl. destruct rest as [|l' rest'].
  - exists []. cbn [join_lines]. by rewrite Hl.
  - exists (split_lines (join_lines (l' :: rest'))).
    rewrite join_lines_cons, split_lines_app_nl, Hl. done.
Qed.

End PatchFacts.

(** X11: a patch without a line that starts with [-] or [+] changes
    nothing. *)
Theorem applyPatch_context_only (content patch : string) :
  (forall l, l ∈ split_lines patch ->
             startsWith l "-" = false /\ startsWith l "+" = false) ->
  applyPatch content patch = content.
Proof.
  intros Hctx. unfold applyPatch, patched_lines.
  rewrite foldl_patch_context by done. apply join_split_lines.
Qed.

Lemma applyPatch_context_only_witness :
  applyPatch ("a" +:+ nl +:+ "b") ("@@ -1,1 +1,1 @@" +:+ nl +:+ " a")
  = "a" +:+ nl +:+ "b".
Proof.
  apply (applyPatch_context_only ("a" +:+ nl +:+ "b")
           ("@@ -1,1 +1,1 @@" +:+ nl +:+ " a")).
  intros l Hl. vm_compute in Hl.
  apply elem_of_cons in Hl as [->|Hl]; [done|].
  apply list_elem_of_singleton in Hl as ->. done.
Defined.

(** X12: the header lines of a patch are themselves read as a removal and
    an insertion.  So the patch from a content to itself, applied to that
    content, puts the line [++ b/file] in front of it (the content having
    no line [-- a/file] to remove). *)
Theorem applyPatch_of_unchanged (c : string) :
  "-- a/file" ∉ split_lines c ->
  applyPatch c (createPatch c c) = "++ b/file" +:+ nl +:+ c.
Proof.
  intros Habsent. unfold createPatch, generateUnifiedDiff.
  rewrite unified_diff_lines_same.
  unfold applyPatch, patched_lines.
  change (split_lines (join_lines ["--- " +:+ default "a/file" None;
                                   "+++ " +:+ default "b/file" None]))
    with ["--- a/file"; "+++ b/file"].
  cbn [foldl]. unfold patch_iteration at 2.
  change (startsWith "--- a/file" "-") with true. cbv iota.
  change (substring_1 "--- a/file") with "-- a/file".
  unfold indexOf_from. cbn [currentLine patched]. rewrite drop_0.
  rewrite (indexOf_absent _ _ Habsent).
  change (patched (patch_iteration
                     (mkPatchAcc (split_lines c) 0) "+++ b/file"))
    with ("++ b/file" :: split_lines c).
  pose proof (split_lines_not_nil c) as Hne.
  destruct (split_lines c) as [|l rest] eqn:Hc; [done|].
  rewrite join_lines_cons, <- Hc. by rewrite join_split_lines.
Qed.

Lemma applyPatch_of_unchanged_witness :
  applyPatch "a" (createPatch "a" "a") = "++ b/file" +:+ nl +:+ "a".
Proof.
  apply (applyPatch_of_unchanged "a").
  vm_compute. intros H. apply list_elem_of_singleton in H. discriminate H.
Defined.

(** X13: whatever the two contents, applying the patch made from them
    gives a content whose first line is [++ b/file]: the patch never gives
    back a new content that starts otherwise. *)
Theorem applyPatch_createPatch_first_line (oldContent newContent : string) :
  head (split_lines (applyPatch oldContent
                                (createPatch oldContent newContent)))
  = Some "++ b/file".
Proof.
  unfold createPatch, generateUnifiedDiff. rewrite unified_diff_lines_hunks.
  simpl default.
  set (hunks := concat _ ++ concat _ ++ concat _).
  change (["--- " +:+ "a/file"; "+++ " +:+ "b/file"] ++ hunks)
    with ("--- a/file" :: "+++ b/file" :: hunks).
  destruct (split_join_single_line "--- a/file" ("+++ b/file" :: hunks)
              eq_refl) as (tail1 & Hsplit & _ & Htail1).
  specialize (Htail1 ltac:(done)).
  destruct (split_join_single_line "+++ b/file" hunks eq_refl)
    as (tail2 & Htail2 & _ & _).
  rewrite Htail2 in Htail1. subst tail1.
  unfold applyPatch, patched_lines. rewrite Hsplit. cbn [foldl].
  set (acc1 := patch_iteration (mkPatchAcc (split_lines oldContent) 0)
                               "--- a/file").
  assert (currentLine acc1 = 0) as Hcur1.
  { unfold acc1, patch_iteration.
    change (startsWith "--- a/file" "-") with true. cbv iota.
    by destruct (indexOf_from _ _ _). }
  set (acc2 := patch_iteration acc1 "+++ b/file").
  assert (head (patched acc2) = Some "++ b/file" /\ 1 <= currentLine acc2)
    as [Hhead Hcur2].
  { unfold acc2, patch_iteration.
    change (startsWith "+++ b/file" "-") with false.
    change (startsWith "+++ b/file" "+") with true. cbv iota.
    cbn [patched currentLine]. rewrite Hcur1. split; [done | lia]. }
  pose proof (foldl_patch_keeps_head tail2 acc2 _ Hhead Hcur2) as Hfinal.
  destruct (patched (foldl patch_iteration acc2 tail2)) as [|h rest];
    [done|].
  injection Hfinal as ->.
  destruct (split_join_single_line "++ b/file" rest eq_refl)
    as (tail & -> & _). done.
Qed.

(** ** Content signatures *)

Section TrimFacts.

Lemma trim_start_whitespace (w s : string) :
  whitespace_only w = true -> trim_start (w +:+ s) = trim_start s.
Proof.
  induction w as [|c w IH]; [done|]. cbn [whitespace_only].
  intros [Hc Hw]%andb_true_iff. rewrite string_app_cons. cbn [trim_start].
  rewrite Hc. by apply IH.
Qed.

Lemma trim_end_whitespace_only (w : string) :
  whitespace_only w = true -> trim_end w = EmptyString.
Proof.
  induction w as [|c w IH]; [done|]. cbn [whitespace_only trim_end].
  intros [Hc Hw]%andb_true_iff. by rewrite IH, Hc.
Qed.

Lemma trim_end_whitespace (s w : string) :
  whitespace_only w = true -> trim_end (s +:+ w) = trim_end s.
Proof.
  intros Hw. induction s as [|c s IH].
  - by apply trim_end_whitespace_only.
  - rewrite string_app_cons. cbn [trim_end]. by rewrite IH.
Qed.

Lemma trim_whitespace_only (w : string) :
  whitespace_only w = true -> trim w = EmptyString.
Proof.
  intros Hw. unfold trim.
  rewrite <- (string_app_empty_r w), trim_start_whitespace by done. done.
Qed.

(** Whitespace around a string is stripped with it. *)
Lemma trim_surrounded (w1 w2 s : string) :
  whitespace_only w1 = true -> whitespace_only w2 = true ->
  trim (w1 +:+ s +:+ w2) = trim s.
Proof.
  intros Hw1 Hw2. unfold trim. rewrite trim_start_whitespace by done.
  induction s as [|c s IH].
  - change (EmptyString +:+ w2) with w2.
    rewrite <- (string_app_empty_r w2), trim_start_whitespace by done.
    done.
  - rewrite string_app_cons. cbn [trim_start].
    destruct (is_whitespace c); [done|].
    rewrite <- string_app_cons. by apply trim_end_whitespace.
Qed.

Lemma newline_is_whitespace : is_whitespace newline_char = true.
Proof. reflexivity. Qed.

Lemma significant_lines_newline (s : string) :
  significant_lines (String newline_char s) = significant_lines s.
Proof. reflexivity. Qed.

(** Whitespace in front of a content adds no significant line. *)
Lemma significant_lines_leading (w c : string) :
  whitespace_only w = true ->
  significant_lines (w +:+ c) = significant_lines c.
Proof.
  induction w as [|ch w IH]; [done|]. cbn [whitespace_only].
  intros [Hch Hw]%andb_true_iff. rewrite string_app_cons.
  destruct (Ascii.eqb ch newline_char) eqn:Hnl.
  - apply Ascii.eqb_eq in Hnl. subst ch.
    rewrite significant_lines_newline. by apply IH.
  - rewrite <- (IH Hw). unfold significant_lines.
    destruct (split_lines (w +:+ c)) as [|first others] eqn:Hsplit.
    { by destruct (split_lines_not_nil (w +:+ c)). }
    rewrite (split_lines_other ch _ first others Hnl Hsplit).
    cbn [map]. f_equal. f_equal. unfold trim. cbn [trim_start].
    by rewrite Hch.
Qed.

Lemma significant_lines_app_nl (c1 c2 : string) :
  significant_lines (c1 +:+ nl +:+ c2)
  = significant_lines c1 ++ significant_lines c2.
Proof.
  unfold significant_lines.
  by rewrite split_lines_app_nl, map_app, List.filter_app.
Qed.

Lemma significant_lines_whitespace (w : string) :
  whitespace_only w = true -> significant_lines w = [].
Proof.
  intros Hw. rewrite <- (string_app_empty_r w).
  by rewrite significant_lines_leading.
Qed.

End TrimFacts.

Section SignatureClaims.

Variable sha256_hex : string -> string.

Lemma hasSignificantChanges_same_lines (a b : string) :
  significant_lines a = significant_lines b ->
  hasSignificantChanges sha256_hex a b = false.
Proof.
  intros Hlines. unfold hasSignificantChanges, generateContentSignature,
    normalized. rewrite Hlines. by rewrite String.eqb_refl.
Qed.

(** X14: whitespace put in front of a content, in front of any later line
    of it, or behind it on lines of its own, is no significant change; the
    whitespace may hold newlines, so this covers added blank lines. *)
Theorem hasSignificantChanges_ignores_blank (w c c1 c2 : string) :
  whitespace_only w = true ->
  hasSignificantChanges sha256_hex c (w +:+ c) = false
  /\ hasSignificantChanges sha256_hex (c1 +:+ nl +:+ c2)
                           (c1 +:+ nl +:+ w +:+ c2) = false
  /\ hasSignificantChanges sha256_hex c (c +:+ nl +:+ w) = false.
Proof.
  intros Hw. repeat split; apply hasSignificantChanges_same_lines.
  - by rewrite significant_lines_leading.
  - by rewrite !significant_lines_app_nl, significant_lines_leading.
  - rewrite significant_lines_app_nl.
    rewrite (significant_lines_whitespace w Hw). by rewrite app_nil_r.
Qed.

End SignatureClaims.

Lemma hasSignificantChanges_ignores_blank_witness :
  whitespace_only ("  " +:+ nl +:+ " ") = true
  /\ hasSignificantChanges Scenario.plain "a" ("a" +:+ nl +:+ "  " +:+ nl +:+ " ")
     = false.
Proof.
  split; [reflexivity|].
  exact (proj2 (proj2 (hasSignificantChanges_ignores_blank Scenario.plain
                         ("  " +:+ nl +:+ " ") "a" "" "" eq_refl))).
Defined.

Section SingleLines.

Lemma single_line_cons (c : ascii) (s : string) :
  single_line (String c s) <-> c <> newline_char /\ single_line s.
Proof.
  unfold single_line. cbn [split_lines].
  destruct (Ascii.eqb_spec c newline_char) as [->|Hc].
  - split; [discriminate | by intros [? _]].
  - destruct (split_lines s) as [|first others] eqn:Hs.
    { by destruct (split_lines_not_nil s). }
    split.
    + intros [= -> ->]. done.
    + intros [_ [= -> ->]]. done.
Qed.

Lemma single_line_app (a b : string) :
  single_line a -> single_line b -> single_line (a +:+ b).
Proof.
  induction a as [|c a IH]; [done|].
  rewrite string_app_cons, !single_line_cons. intros [Hc Ha] Hb.
  split; [done | by apply IH].
Qed.

Lemma split_lines_single (s : string) : Forall single_line (split_lines s).
Proof.
  induction s as [|c s IH].
  - by apply Forall_singleton.
  - cbn [split_lines]. destruct (Ascii.eqb_spec c newline_char) as [->|Hc].
    + by apply Forall_cons.
    + destruct (split_lines s) as [|first others] eqn:Hs;
        [by destruct (split_lines_not_nil s)|].
      apply Forall_cons in IH as [Hfirst Hothers].
      apply Forall_cons. split; [|done]. by apply single_line_cons.
Qed.

(** Newline-free lines joined and split again are the same lines. *)
Lemma split_join_lines (ls : list string) :
  ls <> [] -> Forall single_line ls -> split_lines (join_lines ls) = ls.
Proof.
  induction ls as [|l rest IH]; [done|]. intros _ Hall.
  apply Forall_cons in Hall as [Hl Hrest].
  destruct rest as [|l' rest']; [exact Hl|].
  rewrite join_lines_cons, split_lines_app_nl, Hl, IH; done.
Qed.

End SingleLines.

Section IndentationClaim.

Variable sha256_hex : string -> string.

(** X15: the same whitespace put before and behind every line of a content
    is no significant change. *)
Theorem hasSignificantChanges_ignores_indentation (w1 w2 c : string) :
  whitespace_only w1 = true -> whitespace_only w2 = true ->
  single_line w1 -> single_line w2 ->
  hasSignificantChanges sha256_hex c
    (join_lines (map (fun l => w1 +:+ l +:+ w2) (split_lines c))) = false.
Proof.
  intros Hw1 Hw2 Hs1 Hs2. apply hasSignificantChanges_same_lines.
  unfold significant_lines at 2. rewrite split_join_lines.
  - rewrite List.map_map. unfold significant_lines. f_equal.
    apply List.map_ext. intros l. symmetry. by apply trim_surrounded.
  - pose proof (split_lines_not_nil c). by destruct (split_lines c).
  - apply Forall_forall. intros l' Hl'.
    apply list_elem_of_In, in_map_iff in Hl' as (l & <- & Hl).
    apply list_elem_of_In in Hl.
    pose proof (proj1 (Forall_forall _ _) (split_lines_single c) l Hl).
    by repeat apply single_line_app.
Qed.

End IndentationClaim.

Lemma hasSignificantChanges_ignores_indentation_witness :
  hasSignificantChanges Scenario.plain ("a" +:+ nl +:+ "b")
    (join_lines (map (fun l => "  " +:+ l +:+ " ")
                     (split_lines ("a" +:+ nl +:+ "b")))) = false.
Proof.
  exact (hasSignificantChanges_ignores_indentation Scenario.plain "  " " "
           ("a" +:+ nl +:+ "b") eq_refl eq_refl eq_refl eq_refl).
Defined.

(** ** Every outcome of [createArtifactVersion] *)

Section CreateOutcomes.

Variable sha256_hex : string -> string.

Lemma insert_artifactVersion_checked (row : ArtifactVersion.t) (db db' : Db) :
  insert_artifactVersion row db = Some db' ->
  (ArtifactVersion.id row ∉ map ArtifactVersion.id (artifactVersion db))
  /\ (ArtifactVersion.artifactId row ∈ map Document.id (document db))
  /\ (ArtifactVersion.authorId row ∈ user db).
Proof.
  unfold insert_artifactVersion.
  destruct (negb (mem (ArtifactVersion.id row) _)) eqn:Hid; [|done].
  destruct (mem (ArtifactVersion.artifactId row) _) eqn:Hdoc; [|done].
  destruct (int4 _); [|done].
  destruct (negb (mem (ArtifactVersion.commitHash row) _)); [|done].
  destruct (mem_opt _ _); [|done].
  destruct (mem (ArtifactVersion.authorId row) _) eqn:Huser; [|done].
  intros _. apply negb_true_iff, mem_false in Hid.
  apply mem_true in Hdoc. apply mem_true in Huser. done.
Qed.

(** The three places where a call can end: after the log entry, at the log
    entry, at the version row. *)
Lemma createArtifactVersion_outcome (env : Env) (a title content : string)
    (msg : option string) (author : string) (parent : option string)
    (db db' : Db) (r : Result ArtifactVersion.t) :
  createArtifactVersion sha256_hex env a title content msg author parent db
  = (r, db') ->
  let v := ArtifactVersion.mk (versionUuid env) a (nextVersion a db)
             (generateCommitHash sha256_hex env a (nextVersion a db) content)
             parent title content (generateContentHash sha256_hex content)
             msg author (defaultNow env) true None in
  let entry := ArtifactChangeLog.mk (changeLogUuid env) a
                 (Some (versionUuid env)) Action.update author
                 (Some (version_details msg (nextVersion a db)))
                 (defaultNow env) in
  let failed := Throws (SDKError (mkChatSDKError
                                    "bad_request:database"
                                    "Failed to create artifact version")) in
  (r = Returns v
   /\ db' = mkDb (document (update_document a title content db)) (user db)
                 (map (deactivated a) (artifactVersion db) ++ [v])
                 (artifactBranch db) (artifactChangeLog db ++ [entry])
   /\ (versionUuid env ∉ map ArtifactVersion.id (artifactVersion db))
   /\ (a ∈ map Document.id (document db))
   /\ (author ∈ user db))
  \/ (r = failed
      /\ db' = mkDb (document (update_document a title content db)) (user db)
                    (map (deactivated a) (artifactVersion db) ++ [v])
                    (artifactBranch db) (artifactChangeLog db))
  \/ (r = failed /\ db' = deactivate_active a db).
Proof.
  intros Hcall v entry failed.
  unfold createArtifactVersion, logArtifactChange, try_catch, bind, db_select,
    db_update, db_insert, resolve in Hcall.
  change (version_or_0 (select_latestVersion a db) + 1)%Z
    with (nextVersion a db) in Hcall.
  fold v in Hcall.
  destruct (insert_artifactVersion v (deactivate_active a db))
    as [db2|] eqn:Hversion.
  - pose proof (insert_artifactVersion_checked _ _ _ Hversion)
      as (Hid & Hdoc & Huser).
    apply insert_artifactVersion_Some in Hversion. subst db2.
    destruct (insert_artifactChangeLog _ _) as [db4|] eqn:Hlog.
    + apply insert_artifactChangeLog_Some in Hlog. subst db4.
      injection Hcall as <- <-. left. split; [done|]. split; [done|].
      rewrite deactivate_active_rows in Hid.
      rewrite (map_deactivated _ ArtifactVersion.id) in Hid
        by apply deactivated_id.
      done.
    + injection Hcall as <- <-. right. left. done.
  - injection Hcall as <- <-. right. right. done.
Qed.

Lemma deactivated_other (a : string) (v : ArtifactVersion.t) :
  ArtifactVersion.artifactId v <> a -> deactivated a v = v.
Proof.
  intros Hne. unfold deactivated.
  by destruct (String.eqb_spec (ArtifactVersion.artifactId v) a).
Qed.

Lemma versions_of_other_deactivated (a a' : string)
    (rows : list ArtifactVersion.t) :
  a' <> a ->
  List.filter (fun v => String.eqb (ArtifactVersion.artifactId v) a')
              (map (deactivated a) rows)
  = List.filter (fun v => String.eqb (ArtifactVersion.artifactId v) a') rows.
Proof.
  intros Hne. induction rows as [|v rows IH]; [done|].
  cbn [map List.filter]. rewrite deactivated_artifactId, IH.
  destruct (String.eqb_spec (ArtifactVersion.artifactId v) a') as [Ha'|];
    [|done].
  rewrite deactivated_other; [done | congruence].
Qed.

Lemma create_leaves_others (env : Env)
    (a title content : string) (msg : option string) (author : string)
    (parent : option string) (db db' : Db) (r : Result ArtifactVersion.t)
    (a' : string) :
  createArtifactVersion sha256_hex env a title content msg author parent db
  = (r, db') ->
  a' <> a ->
  versions_of a' db' = versions_of a' db
  /\ active_versions a' db' = active_versions a' db
  /\ artifactBranch db' = artifactBranch db
  /\ user db' = user db.
Proof.
  intros Hcall Hne.
  assert (versions_of a' db' = versions_of a' db) as Hrows.
  { apply createArtifactVersion_outcome in Hcall.
    destruct Hcall as [(_ & -> & _)|[(_ & ->)|(_ & ->)]]; unfold versions_of;
      cbn [artifactVersion deactivate_active];
      rewrite ?List.filter_app, versions_of_other_deactivated by done;
      try done.
    - cbn [List.filter ArtifactVersion.artifactId].
      destruct (String.eqb_spec a a'); [congruence|]. by rewrite app_nil_r.
    - cbn [List.filter ArtifactVersion.artifactId].
      destruct (String.eqb_spec a a'); [congruence|]. by rewrite app_nil_r. }
  split; [done|]. split; [unfold active_versions; by rewrite Hrows|].
  apply createArtifactVersion_outcome in Hcall.
  by destruct Hcall as [(_ & -> & _)|[(_ & ->)|(_ & ->)]].
Qed.

(** X16: a call of [createArtifactVersion] on one artifact, however it
    ends, leaves the versions of every other artifact as they were, and the
    branches and the users too. *)
Theorem createArtifactVersion_other_artifacts (env : Env)
    (a title content : string) (msg : option string) (author : string)
    (parent : option string) (db db' : Db) (r : Result ArtifactVersion.t)
    (a' : string) :
  createArtifactVersion sha256_hex env a title content msg author parent db
  = (r, db') ->
  a' <> a ->
  versions_of a' db' = versions_of a' db
  /\ active_versions a' db' = active_versions a' db
  /\ artifactBranch db' = artifactBranch db
  /\ user db' = user db.
Proof. apply create_leaves_others. Qed.

End CreateOutcomes.

(** A first version of the artifact [other], beside the two versions of
    [doc], whose second is active. *)
Lemma createArtifactVersion_other_artifacts_witness :
  exists (v : ArtifactVersion.t) (db' : Db),
    createArtifactVersion Scenario.plain (Scenario.env_at 3000 "3") "other"
      "Other" "C" None "alice" None MoreScenario.two_artifacts_db
    = (Returns v, db')
    /\ length (versions_of "doc" db') = 2
    /\ (ArtifactVersion.id <$> active_versions "doc" db') = ["version-2"].
Proof.
  destruct (createArtifactVersion Scenario.plain (Scenario.env_at 3000 "3")
              "other" "Other" "C" None "alice" None
              MoreScenario.two_artifacts_db)
    as [[v|e] db'] eqn:Hcall; [|vm_compute in Hcall; discriminate Hcall].
  exists v, db'. split; [reflexivity|].
  destruct (createArtifactVersion_other_artifacts Scenario.plain _ _ _ _ _ _
              _ _ _ _ "doc" Hcall ltac:(discriminate))
    as (-> & -> & _).
  split; reflexivity.
Defined.

Section CreateEffects.

Variable sha256_hex : string -> string.

Lemma active_versions_deactivated (a : string) (db : Db) :
  active_versions a (deactivate_active a db) = [].
Proof.
  unfold active_versions. rewrite versions_of_deactivate.
  apply active_after_deactivate.
Qed.

Lemma versions_of_snoc (a : string) (docs : list Document.t)
    (users : list string) (rows : list ArtifactVersion.t)
    (v : ArtifactVersion.t) (branches : list ArtifactBranch.t)
    (entries : list ArtifactChangeLog.t) :
  ArtifactVersion.artifactId v = a ->
  versions_of a (mkDb docs users (map (deactivated a) rows ++ [v]) branches
                      entries)
  = map (deactivated a)
        (List.filter (fun x => String.eqb (ArtifactVersion.artifactId x) a)
                     rows) ++ [v].
Proof.
  intros Hv. unfold versions_of. cbn [artifactVersion].
  rewrite List.filter_app. cbn [List.filter]. rewrite Hv, String.eqb_refl.
  f_equal.
  exact (versions_of_deactivate a a (mkDb docs users rows branches entries)).
Qed.

(** The rows of the artifact, however the call ends. *)
Lemma create_rows_of_artifact (env : Env) (a title content : string)
    (msg : option string) (author : string) (parent : option string)
    (db db' : Db) (r : Result ArtifactVersion.t) :
  createArtifactVersion sha256_hex env a title content msg author parent db
  = (r, db') ->
  (versions_of a db' = map (deactivated a) (versions_of a db)
   /\ active_versions a db' = [])
  \/ exists v : ArtifactVersion.t,
       versions_of a db' = map (deactivated a) (versions_of a db) ++ [v]
       /\ active_versions a db' = [v]
       /\ ArtifactVersion.id v = versionUuid env
       /\ ArtifactVersion.version v = nextVersion a db.
Proof.
  intros Hcall. apply createArtifactVersion_outcome in Hcall.
  assert (forall docs users branches entries v,
            ArtifactVersion.artifactId v = a ->
            ArtifactVersion.isActive v = true ->
            active_versions a (mkDb docs users
                                 (map (deactivated a) (artifactVersion db)
                                  ++ [v]) branches entries) = [v]) as Hactive.
  { intros docs users branches entries v Hv Hon.
    unfold active_versions. rewrite versions_of_snoc by done.
    change (List.filter _ (artifactVersion db)) with (versions_of a db).
    rewrite List.filter_app, (active_after_deactivate a db).
    cbn [List.filter app]. by rewrite Hon. }
  destruct Hcall as [(_ & -> & _)|[(_ & ->)|(_ & ->)]].
  - right. eexists. rewrite versions_of_snoc, Hactive by done. done.
  - right. eexists. rewrite versions_of_snoc, Hactive by done. done.
  - left. split; [apply versions_of_deactivate|].
    apply active_versions_deactivated.
Qed.

(** X17: a call of [createArtifactVersion] that throws throws the one
    error of its [catch] block, and nothing is rolled back: every version
    the artifact had is left inactive, and the artifact has no active
    version, or the new row as its only active one when it was the log entry
    that was refused. *)
Theorem createArtifactVersion_throws (env : Env) (a title content : string)
    (msg : option string) (author : string) (parent : option string)
    (db db' : Db) (e : Exception) :
  createArtifactVersion sha256_hex env a title content msg author parent db
  = (Throws e, db') ->
  e = SDKError (mkChatSDKError "bad_request:database"
                               "Failed to create artifact version")
  /\ (versions_of a db' = map (deactivated a) (versions_of a db)
      /\ active_versions a db' = []
      \/ exists v : ArtifactVersion.t,
           versions_of a db' = map (deactivated a) (versions_of a db) ++ [v]
           /\ active_versions a db' = [v]
           /\ ArtifactVersion.id v = versionUuid env).
Proof.
  intros Hcall. split.
  - apply createArtifactVersion_outcome in Hcall.
    destruct Hcall as [(Hr & _)|[(Hr & _)|(Hr & _)]]; [done| |];
      by injection Hr as ->.
  - apply create_rows_of_artifact in Hcall.
    destruct Hcall as [?|(v & ? & ? & ? & _)]; [by left|].
    right. by exists v.
Qed.

(** X18: a call of [createArtifactVersion] that returns has added one entry
    to the change log, behind the others: an [update] of the artifact by the
    author, pointing to the new version and carrying its number and, if one
    was given, its commit message. *)
Theorem createArtifactVersion_logs_update (env : Env)
    (a title content : string) (msg : option string) (author : string)
    (parent : option string) (db db' : Db) (v : ArtifactVersion.t) :
  createArtifactVersion sha256_hex env a title content msg author parent db
  = (Returns v, db') ->
  artifactChangeLog db'
  = artifactChangeLog db
    ++ [ArtifactChangeLog.mk (changeLogUuid env) a
          (Some (ArtifactVersion.id v)) Action.update author
          (Some (JObject (match msg with
                          | Some m => [("commitMessage", JString m)]
                          | None => []
                          end
                          ++ [("version",
                               JNumber (ArtifactVersion.version v))])))
          (defaultNow env)].
Proof.
  intros Hcall. apply createArtifactVersion_outcome in Hcall.
  destruct Hcall as [(Hr & -> & _)|[(Hr & _)|(Hr & _)]]; [|done|done].
  injection Hr as ->. reflexivity.
Qed.

(** X19: a call of [createArtifactVersion] that returns has given every
    document row of the artifact the title and content of the new version,
    and there is such a row; the other documents are as before. *)
Theorem createArtifactVersion_projects (env : Env)
    (a title content : string) (msg : option string) (author : string)
    (parent : option string) (db db' : Db) (v : ArtifactVersion.t) :
  createArtifactVersion sha256_hex env a title content msg author parent db
  = (Returns v, db') ->
  document db'
  = map (fun d => if String.eqb (Document.id d) a
                  then Document.mk a (ArtifactVersion.title v)
                                   (ArtifactVersion.content v)
                  else d) (document db)
  /\ (exists d, d ∈ document db' /\ Document.id d = a)
  /\ forall d, d ∈ document db' -> Document.id d = a ->
               Document.title d = ArtifactVersion.title v
               /\ Document.content d = ArtifactVersion.content v.
Proof.
  intros Hcall. apply createArtifactVersion_outcome in Hcall.
  destruct Hcall as [(Hr & -> & _ & Hdoc & _)|[(Hr & _)|(Hr & _)]];
    [|done|done].
  injection Hr as ->. cbn [document update_document ArtifactVersion.title
                           ArtifactVersion.content].
  assert (map (fun d => if String.eqb (Document.id d) a
                        then Document.mk (Document.id d) title content else d)
              (document db)
          = map (fun d => if String.eqb (Document.id d) a
                          then Document.mk a title content else d)
                (document db)) as ->.
  { apply List.map_ext. intros d.
    by destruct (String.eqb_spec (Document.id d) a) as [->|]. }
  split; [done|]. split.
  - apply list_elem_of_In, in_map_iff in Hdoc as (d & Hd & Hin).
    exists (Document.mk a title content). split; [|done].
    apply list_elem_of_In, in_map_iff. exists d.
    by rewrite Hd, String.eqb_refl.
  - intros d Hd Hid.
    apply list_elem_of_In, in_map_iff in Hd as (d0 & Hd0 & _).
    destruct (String.eqb_spec (Document.id d0) a) as [_|Hne].
    + by subst d.
    + subst d. done.
Qed.

End CreateEffects.

(** ** Every outcome of [restoreArtifactVersion] and [createArtifactBranch] *)

Section RestoreOutcomes.

Variable sha256_hex : string -> string.

Lemma select_version_Some (versionId a : string) (db : Db)
    (t : ArtifactVersion.t) :
  select_version versionId a db = Some t ->
  t ∈ artifactVersion db /\ ArtifactVersion.id t = versionId
  /\ ArtifactVersion.artifactId t = a.
Proof.
  unfold select_version. intros Hhead.
  assert (In t (List.filter
                  (fun v => String.eqb (ArtifactVersion.id v) versionId
                            && String.eqb (ArtifactVersion.artifactId v) a)
                  (artifactVersion db))) as Hin.
  { destruct (List.filter _ _) as [|x rest]; [done|].
    injection Hhead as ->. by left. }
  apply filter_In in Hin as [Hin [Hid Ha]%andb_true_iff].
  apply String.eqb_eq in Hid. apply String.eqb_eq in Ha.
  split; [by apply list_elem_of_In | done].
Qed.

Lemma select_version_None (versionId a : string) (db : Db) :
  (forall v, v ∈ artifactVersion db -> ArtifactVersion.id v = versionId ->
             ArtifactVersion.artifactId v <> a) ->
  select_version versionId a db = None.
Proof.
  intros Hnone. destruct (select_version versionId a db) as [t|] eqn:Ht;
    [|done].
  apply select_version_Some in Ht as (Hin & Hid & Ha).
  by destruct (Hnone t Hin Hid).
Qed.

(** Where a call of [restoreArtifactVersion] can end: at the select, or
    where the call of [createArtifactVersion] it makes ends. *)
Lemma restoreArtifactVersion_outcome (env : Env)
    (a versionId userId : string) (db db' : Db)
    (r : Result ArtifactVersion.t) :
  restoreArtifactVersion sha256_hex env a versionId userId db = (r, db') ->
  let failed := Throws (SDKError (mkChatSDKError
                                    "bad_request:database"
                                    "Failed to restore artifact version")) in
  (select_version versionId a db = None /\ r = failed /\ db' = db)
  \/ exists (t : ArtifactVersion.t) (r0 : Result ArtifactVersion.t),
       select_version versionId a db = Some t
       /\ createArtifactVersion sha256_hex env a (ArtifactVersion.title t)
            (ArtifactVersion.content t)
            (Some ("Restored from version "
                   +:+ decimal (ArtifactVersion.version t))) userId None db
          = (r0, db')
       /\ ((exists v, r0 = Returns v /\ r = Returns v)
           \/ (exists e, r0 = Throws e /\ r = failed)).
Proof.
  intros Hcall failed. unfold restoreArtifactVersion in Hcall.
  apply try_catch_inv in Hcall. unfold bind, db_select, throw in Hcall.
  destruct (select_version versionId a db) as [t|].
  - right. exists t.
    destruct Hcall as [(v & Hb & ->)|(e & Hb & ->)]; eexists;
      (split; [done|]); (split; [exact Hb|]); [left | right]; by eexists.
  - left. destruct Hcall as [(v & Hb & _)|(e & Hb & ->)]; [done|].
    by injection Hb as _ <-.
Qed.

(** X20: [restoreArtifactVersion] with a version id that the artifact has
    no version of, be it the id of a version of another artifact, throws
    the error of its [catch] block, of code [bad_request:database] and not
    [not_found:database], and writes nothing. *)
Theorem restoreArtifactVersion_unknown (env : Env)
    (a versionId userId : string) (db : Db) :
  (forall v, v ∈ artifactVersion db -> ArtifactVersion.id v = versionId ->
             ArtifactVersion.artifactId v <> a) ->
  restoreArtifactVersion sha256_hex env a versionId userId db
  = (Throws (SDKError (mkChatSDKError "bad_request:database"
                                      "Failed to restore artifact version")),
     db).
Proof.
  intros Hnone. unfold restoreArtifactVersion, try_catch, bind, db_select.
  by rewrite select_version_None.
Qed.

(** X21: a restore that returns is logged as an [update], not as a
    [restore]: the change log gets one entry more, which points to the new
    version and carries the message "Restored from version n" for a version
    numbered n that the artifact has under the given id. *)
Theorem restoreArtifactVersion_logs_update (env : Env)
    (a versionId userId : string) (db db' : Db) (v : ArtifactVersion.t) :
  restoreArtifactVersion sha256_hex env a versionId userId db
  = (Returns v, db') ->
  exists t : ArtifactVersion.t,
    t ∈ artifactVersion db /\ ArtifactVersion.id t = versionId
    /\ ArtifactVersion.artifactId t = a
    /\ artifactChangeLog db'
       = artifactChangeLog db
         ++ [ArtifactChangeLog.mk (changeLogUuid env) a
               (Some (ArtifactVersion.id v)) Action.update userId
               (Some (JObject
                        [("commitMessage",
                          JString ("Restored from version "
                                   +:+ decimal (ArtifactVersion.version t)));
                         ("version", JNumber (ArtifactVersion.version v))]))
               (defaultNow env)].
Proof.
  intros Hcall. apply restoreArtifactVersion_outcome in Hcall.
  destruct Hcall as [(_ & Hr & _)|(t & r0 & Ht & Hcreate & Hr)]; [done|].
  destruct Hr as [(v' & -> & [= <-])|(e & _ & Hr)]; [|done].
  apply select_version_Some in Ht as (Hin & Hid & Ha).
  exists t. repeat (split; [done|]).
  apply createArtifactVersion_outcome in Hcreate.
  destruct Hcreate as [(Hr & -> & _)|[(Hr & _)|(Hr & _)]]; [|done|done].
  injection Hr as ->. reflexivity.
Qed.

End RestoreOutcomes.

Lemma createArtifactBranch_versions (env : Env)
    (a name fromVersionId : string) (db : Db) :
  artifactVersion (snd (createArtifactBranch env a name fromVersionId db))
  = artifactVersion db.
Proof.
  unfold createArtifactBranch, try_catch, db_insert.
  destruct (insert_artifactBranch _ db) as [db2|] eqn:Hins; cbn [snd];
    [|done].
  apply insert_artifactBranch_Some in Hins as (stored & _ & ->). done.
Qed.

(** X22: [createArtifactBranch], however it ends, writes to the branch
    table only: no version, document or user changes and nothing is added to
    the change log, so a branch is created without an audit entry.  The
    branches are as before, or there is one more, not a default one, on the
    given artifact and version, under what a [varchar(100)] keeps of the
    given name. *)
Theorem createArtifactBranch_writes_branches_only (env : Env)
    (a name fromVersionId : string) (db : Db) :
  artifactVersion (snd (createArtifactBranch env a name fromVersionId db))
  = artifactVersion db
  /\ document (snd (createArtifactBranch env a name fromVersionId db))
     = document db
  /\ user (snd (createArtifactBranch env a name fromVersionId db)) = user db
  /\ artifactChangeLog (snd (createArtifactBranch env a name fromVersionId db))
     = artifactChangeLog db
  /\ (artifactBranch (snd (createArtifactBranch env a name fromVersionId db))
      = artifactBranch db
      \/ exists stored : string,
           varchar 100 name = Some stored
           /\ artifactBranch (snd (createArtifactBranch env a name
                                                       fromVersionId db))
              = artifactBranch db
                ++ [ArtifactBranch.mk (branchUuid env) a stored fromVersionId
                                      false (defaultNow env)
                                      (defaultNow env)]).
Proof.
  unfold createArtifactBranch, try_catch, db_insert.
  destruct (insert_artifactBranch _ db) as [db2|] eqn:Hins; cbn [snd].
  - apply insert_artifactBranch_Some in Hins as (stored & Hstored & ->).
    repeat split. right. by exists stored.
  - repeat split. by left.
Qed.

(** ** Invariants of the version table *)

Section TableInvariants.

Variable sha256_hex : string -> string.

Lemma versions_of_same_rows (a : string) (db db' : Db) :
  artifactVersion db' = artifactVersion db ->
  versions_of a db' = versions_of a db.
Proof. intros Hrows. unfold versions_of. by rewrite Hrows. Qed.

(** The rows of any artifact after a call of [createArtifactVersion],
    however it ends. *)
Lemma create_rows_any (env : Env) (a title content : string)
    (msg : option string) (author : string) (parent : option string)
    (db : Db) (x : string) :
  let db' := snd (createArtifactVersion sha256_hex env a title content msg
                                        author parent db) in
  (length (active_versions x db') <= Nat.max 1 (length (active_versions x db))
   /\ (length (active_versions x db) <= 1 ->
       length (active_versions x db') <= 1))
  /\ (NoDup (map ArtifactVersion.version (versions_of x db)) ->
      NoDup (map ArtifactVersion.version (versions_of x db'))).
Proof.
  intros db'.
  destruct (createArtifactVersion sha256_hex env a title content msg author
                                  parent db) as [r db''] eqn:Hcall.
  subst db'. cbn [snd].
  destruct (decide (x = a)) as [->|Hne].
  - apply create_rows_of_artifact in Hcall.
    destruct Hcall as [[Hrows Hactive]|(v & Hrows & Hactive & _ & Hv)];
      rewrite Hrows, Hactive; cbn [length].
    + split; [split; lia|]. by rewrite versions_of_numbers_deactivated.
    + split; [split; lia|]. intros Hnodup.
      rewrite map_app, versions_of_numbers_deactivated. cbn [map].
      apply NoDup_app. split; [done|]. split; [|apply NoDup_singleton].
      intros n Hn Hn'. apply list_elem_of_singleton in Hn'. subst n.
      rewrite Hv in Hn. by apply nextVersion_fresh in Hn.
  - destruct (create_leaves_others sha256_hex _ _ _ _ _ _ _ _ _ _ x Hcall Hne)
      as (-> & -> & _). split; [split; lia | done].
Qed.

Lemma restore_state (env : Env) (a versionId userId : string) (db : Db) :
  snd (restoreArtifactVersion sha256_hex env a versionId userId db) = db
  \/ exists title content msg,
       snd (restoreArtifactVersion sha256_hex env a versionId userId db)
       = snd (createArtifactVersion sha256_hex env a title content msg
                                    userId None db).
Proof.
  destruct (restoreArtifactVersion sha256_hex env a versionId userId db)
    as [r db'] eqn:Hcall.
  apply restoreArtifactVersion_outcome in Hcall.
  destruct Hcall as [(_ & _ & ->)|(t & r0 & _ & Hcreate & _)]; [by left|].
  right. eexists _, _, _. by rewrite Hcreate.
Qed.

(** X23: when every artifact has at most one active version, it is so
    again after a call of [createArtifactVersion], of
    [restoreArtifactVersion] or of [createArtifactBranch], whether the call
    returned or threw. *)
Theorem at_most_one_active_kept (db : Db) :
  at_most_one_active db ->
  (forall env a title content msg author parent,
     at_most_one_active
       (snd (createArtifactVersion sha256_hex env a title content msg author
                                   parent db)))
  /\ (forall env a versionId userId,
        at_most_one_active
          (snd (restoreArtifactVersion sha256_hex env a versionId userId db)))
  /\ (forall env a name fromVersionId,
        at_most_one_active
          (snd (createArtifactBranch env a name fromVersionId db))).
Proof.
  intros Hone. split; [|split].
  - intros env a title content msg author parent x.
    by apply create_rows_any.
  - intros env a versionId userId x.
    destruct (restore_state env a versionId userId db)
      as [->|(title & content & msg & ->)]; [done|].
    by apply create_rows_any.
  - intros env a name fromVersionId x.
    unfold active_versions.
    rewrite (versions_of_same_rows x db); [apply Hone|].
    apply createArtifactBranch_versions.
Qed.

(** X24: when no artifact has two versions with the same number, it is so
    again after a call of [createArtifactVersion], of
    [restoreArtifactVersion] or of [createArtifactBranch], whether the call
    returned or threw. *)
Theorem numbers_distinct_kept (db : Db) :
  numbers_distinct db ->
  (forall env a title content msg author parent,
     numbers_distinct
       (snd (createArtifactVersion sha256_hex env a title content msg author
                                   parent db)))
  /\ (forall env a versionId userId,
        numbers_distinct
          (snd (restoreArtifactVersion sha256_hex env a versionId userId db)))
  /\ (forall env a name fromVersionId,
        numbers_distinct
          (snd (createArtifactBranch env a name fromVersionId db))).
Proof.
  intros Hdistinct. split; [|split].
  - intros env a title content msg author parent x.
    by apply create_rows_any.
  - intros env a versionId userId x.
    destruct (restore_state env a versionId userId db)
      as [->|(title & content & msg & ->)]; [done|].
    by apply create_rows_any.
  - intros env a name fromVersionId x.
    rewrite (versions_of_same_rows x db); [apply Hdistinct|].
    apply createArtifactBranch_versions.
Qed.

End TableInvariants.

(** ** Reading back what was written *)

Section ReadBack.

Variable sha256_hex : string -> string.
Variable user_email : string -> string.

Lemma filter_id_absent (versionId : string) (rows : list ArtifactVersion.t) :
  versionId ∉ map ArtifactVersion.id rows ->
  List.filter (fun v => String.eqb (ArtifactVersion.id v) versionId) rows = [].
Proof.
  induction rows as [|v rows IH]; [done|]. cbn [map List.filter].
  intros [Hne Hrest]%not_elem_of_cons.
  destruct (String.eqb_spec (ArtifactVersion.id v) versionId); [done|].
  by apply IH.
Qed.

(** X25: the version a call of [createArtifactVersion] returns is the one
    [getArtifactVersionById] then finds under its id. *)
Theorem getArtifactVersionById_after_create (env : Env)
    (a title content : string) (msg : option string) (author : string)
    (parent : option string) (db db' : Db) (v : ArtifactVersion.t) :
  createArtifactVersion sha256_hex env a title content msg author parent db
  = (Returns v, db') ->
  getArtifactVersionById (ArtifactVersion.id v) db' = (Returns (Some v), db').
Proof.
  intros Hcall. apply createArtifactVersion_outcome in Hcall.
  destruct Hcall as [(Hr & -> & Hid & _)|[(Hr & _)|(Hr & _)]]; [|done|done].
  injection Hr as ->.
  unfold getArtifactVersionById, try_catch, bind, db_select, resolve.
  cbn [artifactVersion ArtifactVersion.id]. rewrite List.filter_app.
  rewrite filter_id_absent.
  - cbn [List.filter ArtifactVersion.id app]. by rewrite String.eqb_refl.
  - by rewrite (map_deactivated _ ArtifactVersion.id) by apply deactivated_id.
Qed.

Lemma joined_users_exists (userId : string) (db : Db) :
  userId ∈ user db ->
  exists others,
    joined_users user_email userId db
    = mkAuthor userId (user_email userId) :: others.
Proof.
  unfold joined_users. induction (user db) as [|u users IH]; intros Hin.
  - by apply elem_of_nil in Hin.
  - cbn [List.filter]. destruct (String.eqb_spec userId u) as [<-|Hne].
    + eexists. done.
    + apply elem_of_cons in Hin as [?|Hin]; [done|]. by apply IH.
Qed.

Lemma joined_users_only (userId : string) (db : Db) (au : Author) :
  au ∈ joined_users user_email userId db ->
  au = mkAuthor userId (user_email userId) /\ userId ∈ user db.
Proof.
  unfold joined_users. intros Hin.
  apply list_elem_of_In, in_map_iff in Hin as (u & <- & Hu).
  apply filter_In in Hu as [Hu Heq]. apply String.eqb_eq in Heq. subst u.
  split; [done | by apply list_elem_of_In].
Qed.

#[local] Instance version_desc_total {B : Type} :
  Total (@version_desc B).
Proof. intros x y. unfold version_desc. lia. Qed.

#[local] Instance version_desc_trans {B : Type} :
  Transitive (@version_desc B).
Proof. intros x y z. unfold version_desc. lia. Qed.

(** X26: [getArtifactVersionHistory] returns the versions of the artifact
    whose author is a user, each with that author, the greater version
    number first; a version whose author is no user is left out by the
    join. *)
Theorem getArtifactVersionHistory_sorted (a : string) (db : Db) :
  exists rows : list (ArtifactVersion.t * Author),
    getArtifactVersionHistory user_email a db = (Returns rows, db)
    /\ StronglySorted version_desc rows
    /\ forall (v : ArtifactVersion.t) (au : Author),
         (v, au) ∈ rows
         <-> v ∈ versions_of a db
             /\ ArtifactVersion.authorId v ∈ user db
             /\ au = mkAuthor (ArtifactVersion.authorId v)
                              (user_email (ArtifactVersion.authorId v)).
Proof.
  eexists. split; [reflexivity|]. split.
  - apply StronglySorted_merge_sort; apply _.
  - intros v au. rewrite merge_sort_Permutation.
    rewrite list_elem_of_In, in_flat_map. split.
    + intros (v' & Hv' & Hin). apply in_map_iff in Hin as (au' & [= <- <-] & Hau).
      apply list_elem_of_In, joined_users_only in Hau as [-> Huser].
      split; [by apply list_elem_of_In | done].
    + intros (Hv & Huser & ->). exists v. split; [by apply list_elem_of_In|].
      apply in_map_iff. eexists. split; [done|].
      destruct (joined_users_exists _ db Huser) as (others & ->). by left.
Qed.

End ReadBack.

Section ReadAfterCreate.

Variable sha256_hex : string -> string.
Variable user_email : string -> string.

Lemma joined_users_single (userId : string) (db : Db) :
  NoDup (user db) -> userId ∈ user db ->
  joined_users user_email userId db
  = [mkAuthor userId (user_email userId)].
Proof.
  unfold joined_users. induction (user db) as [|u users IH]; intros Hnd Hin.
  - by apply elem_of_nil in Hin.
  - apply NoDup_cons in Hnd as [Hu Hnd]. cbn [List.filter].
    destruct (String.eqb_spec userId u) as [<-|Hne].
    + cbn [map]. f_equal.
      assert (List.filter (fun u => String.eqb userId u) users = []) as ->;
        [|done].
      clear -Hu. induction users as [|u' users IH]; [done|].
      apply not_elem_of_cons in Hu as [Hne Hu]. cbn [List.filter].
      destruct (String.eqb_spec userId u'); [done | by apply IH].
    + apply elem_of_cons in Hin as [?|Hin]; [done|]. by apply IH.
Qed.

(** The versions the artifact had before a returning call, as the history
    shows them afterwards: inactive and with a smaller number. *)
Lemma former_rows_below (a : string) (db : Db) (o : ArtifactVersion.t) :
  o ∈ versions_of a db ->
  ArtifactVersion.isActive (deactivated a o) = false
  /\ (ArtifactVersion.version (deactivated a o) < nextVersion a db)%Z.
Proof.
  intros Ho. split.
  - apply deactivated_inactive.
    apply list_elem_of_In, filter_In in Ho as [_ Ha].
    by apply String.eqb_eq in Ha.
  - rewrite deactivated_version.
    assert (ArtifactVersion.version o
            ∈ map ArtifactVersion.version (versions_of a db)) as Hin.
    { by apply list_elem_of_In, in_map, list_elem_of_In. }
    destruct (nextVersion_succ_of_greatest a db) as [[Hnil _]|[_ Hmax]].
    + rewrite Hnil in Hin. by apply elem_of_nil in Hin.
    + specialize (Hmax _ Hin). lia.
Qed.

#[local] Instance version_desc_total' {B : Type} : Total (@version_desc B).
Proof. intros x y. unfold version_desc. lia. Qed.

#[local] Instance version_desc_trans' {B : Type} :
  Transitive (@version_desc B).
Proof. intros x y z. unfold version_desc. lia. Qed.

(** X27: after a call of [createArtifactVersion] that returned, the history
    of the artifact starts with the new version and its author; every other
    row of it is inactive and has a smaller number.  (The users have
    distinct ids.) *)
Theorem getArtifactVersionHistory_after_create (env : Env)
    (a title content : string) (msg : option string) (author : string)
    (parent : option string) (db db' : Db) (v : ArtifactVersion.t) :
  NoDup (user db) ->
  createArtifactVersion sha256_hex env a title content msg author parent db
  = (Returns v, db') ->
  exists rest : list (ArtifactVersion.t * Author),
    getArtifactVersionHistory user_email a db'
    = (Returns ((v, mkAuthor author (user_email author)) :: rest), db')
    /\ forall r, r ∈ rest ->
         ArtifactVersion.isActive (fst r) = false
         /\ (ArtifactVersion.version (fst r) < ArtifactVersion.version v)%Z.
Proof.
  intros Hnodup Hcall.
  destruct (versions_of_after_create _ _ _ _ _ _ _ _ _ _ _ Hcall)
    as [Hrows Hnumber].
  pose proof (createArtifactVersion_outcome _ _ _ _ _ _ _ _ _ _ _ Hcall)
    as Hout. cbv zeta in Hout.
  destruct Hout as [(Hr & Hdb & _ & _ & Hauthor)|[(Hr & _)|(Hr & _)]];
    [|done|done].
  assert (user db' = user db) as Husers by (by rewrite Hdb).
  assert (ArtifactVersion.authorId v = author) as Hau
    by (by injection Hr as ->).
  set (new := (v, mkAuthor author (user_email author))).
  set (f := fun x : ArtifactVersion.t =>
              map (fun au : Author => (x, au))
                  (joined_users user_email (ArtifactVersion.authorId x) db')).
  set (olds := flat_map f (map (deactivated a) (versions_of a db))).
  assert (flat_map f (versions_of a db') = olds ++ [new]) as Hjoined.
  { rewrite Hrows, flat_map_app. f_equal. cbn [flat_map]. unfold f.
    rewrite Hau, joined_users_single; [done | by rewrite Husers |
                                       by rewrite Husers]. }
  assert (forall r, r ∈ olds ->
            ArtifactVersion.isActive (fst r) = false
            /\ (ArtifactVersion.version (fst r)
                < ArtifactVersion.version v)%Z) as Holds.
  { intros r Hr'. apply list_elem_of_In, in_flat_map in Hr' as (o' & Ho' & Hin).
    apply in_map_iff in Hin as (au & <- & _). cbn [fst].
    apply in_map_iff in Ho' as (o & <- & Ho). rewrite Hnumber.
    by apply former_rows_below, list_elem_of_In. }
  pose proof (merge_sort_Permutation version_desc (olds ++ [new])) as Hperm.
  pose proof (StronglySorted_merge_sort version_desc (olds ++ [new]))
    as Hsorted.
  destruct (merge_sort version_desc (olds ++ [new])) as [|h rest] eqn:Hsort.
  { apply Permutation_nil in Hperm. by destruct olds. }
  assert (h = new) as ->.
  { assert (h ∈ olds ++ [new]) as Hh
      by (rewrite <- Hperm; apply list_elem_of_here).
    apply elem_of_app in Hh as [Hh|Hh];
      [|by apply list_elem_of_singleton in Hh].
    destruct (Holds h Hh) as [_ Hlt].
    assert (new ∈ h :: rest) as Hnew.
    { rewrite Hperm. apply elem_of_app. right. apply list_elem_of_here. }
    apply elem_of_cons in Hnew as [Hnew|Hnew]; [by subst h|].
    apply StronglySorted_inv in Hsorted as [_ Hall].
    rewrite Forall_forall in Hall. specialize (Hall new Hnew).
    unfold version_desc in Hall. cbn [fst new] in Hall. lia. }
  exists rest. split.
  - unfold getArtifactVersionHistory, try_catch, db_select.
    fold f. by rewrite Hjoined, Hsort.
  - intros r Hr'. apply Holds.
    assert (rest ≡ₚ olds) as <-; [|done].
    apply (Permutation_cons_inv (a := new)).
    rewrite Hperm. by rewrite Permutation_app_comm.
Qed.

Lemma documents_of_artifact_updated (a title content : string)
    (docs : list Document.t) :
  a ∈ map Document.id docs ->
  exists others,
    List.filter (fun d => String.eqb (Document.id d) a)
                (map (fun d => if String.eqb (Document.id d) a
                               then Document.mk (Document.id d) title content
                               else d) docs)
    = Document.mk a title content :: others.
Proof.
  induction docs as [|d docs IH]; intros Hin.
  - by apply elem_of_nil in Hin.
  - cbn [map List.filter].
    destruct (String.eqb_spec (Document.id d) a) as [Hd|Hne].
    + cbn [Document.id]. rewrite Hd, String.eqb_refl. by eexists.
    + apply String.eqb_neq in Hne as Hne'. rewrite Hne'.
      cbn [map] in Hin. apply elem_of_cons in Hin as [?|Hin]; [done|].
      by apply IH.
Qed.

(** X28: after a call of [createArtifactVersion] that returned,
    [getArtifactWithCurrentVersion] shows the artifact with the title and
    content of the new version, that version as the current one, and its
    author. *)
Theorem getArtifactWithCurrentVersion_after_create (env : Env)
    (a title content : string) (msg : option string) (author : string)
    (parent : option string) (db db' : Db) (v : ArtifactVersion.t) :
  createArtifactVersion sha256_hex env a title content msg author parent db
  = (Returns v, db') ->
  getArtifactWithCurrentVersion user_email a db'
  = (Returns (Some (mkArtifactWithVersion
                      (Document.mk a (ArtifactVersion.title v)
                                   (ArtifactVersion.content v))
                      (Some v)
                      (Some (mkAuthor (ArtifactVersion.authorId v)
                                      (user_email
                                         (ArtifactVersion.authorId v)))))),
     db').
Proof.
  intros Hcall.
  pose proof (active_versions_after_create _ _ _ _ _ _ _ _ _ _ _ Hcall)
    as Hactive.
  pose proof (createArtifactVersion_outcome _ _ _ _ _ _ _ _ _ _ _ Hcall)
    as Hout. cbv zeta in Hout.
  destruct Hout as [(Hr & Hdb & _ & Hdoc & Hauthor)|[(Hr & _)|(Hr & _)]];
    [|done|done].
  assert (document db'
          = map (fun d => if String.eqb (Document.id d) a
                          then Document.mk (Document.id d) title content
                          else d) (document db)) as Hdocs
    by (by rewrite Hdb).
  assert (user db' = user db) as Husers by (by rewrite Hdb).
  assert (ArtifactVersion.title v = title /\ ArtifactVersion.content v = content
          /\ ArtifactVersion.authorId v = author) as (-> & -> & ->)
    by (by injection Hr as ->).
  destruct (documents_of_artifact_updated a title content _ Hdoc)
    as (others & Hfirst).
  destruct (joined_users_exists user_email author db')
    as (more & Hjoin); [by rewrite Husers|].
  unfold getArtifactWithCurrentVersion, try_catch, bind, db_select, resolve.
  rewrite Hdocs, Hfirst. cbn [flat_map].
  unfold left_join_active at 1. cbn [Document.id]. rewrite Hactive.
  cbn [flat_map]. unfold left_join_author.
  assert (ArtifactVersion.authorId v = author) as -> by (by injection Hr as ->).
  rewrite Hjoin. done.
Qed.

End ReadAfterCreate.

(** ** Branch names and the width of their column *)

(** A name of 100 characters followed by a space is stored without the
    space; followed by another character it is refused. *)
Example createArtifactBranch_long_name :
  String.length MoreScenario.long_name = 100
  /\ fst (createArtifactBranch (Scenario.env_at 3000 "3") "doc"
            (MoreScenario.long_name +:+ " ") "version-1"
            Scenario.two_versions_db) = Returns tt
  /\ (ArtifactBranch.name
        <$> artifactBranch
              (snd (createArtifactBranch (Scenario.env_at 3000 "3") "doc"
                      (MoreScenario.long_name +:+ " ") "version-1"
                      Scenario.two_versions_db)))
     = [MoreScenario.long_name]
  /\ fst (createArtifactBranch (Scenario.env_at 3000 "3") "doc"
            (MoreScenario.long_name +:+ "b") "version-1"
            Scenario.two_versions_db)
     = Throws (SDKError (mkChatSDKError "bad_request:database"
                                        "Failed to create artifact branch")).
Proof. repeat split. Qed.

(** ** Reading branches *)

Section BranchReads.

#[local] Instance updated_desc_total {B : Type} : Total (@updated_desc B).
Proof. intros x y. unfold updated_desc. lia. Qed.

#[local] Instance updated_desc_trans {B : Type} :
  Transitive (@updated_desc B).
Proof. intros x y z. unfold updated_desc. lia. Qed.

Lemma getArtifactBranches_rows (a : string) (db : Db) (b : ArtifactBranch.t)
    (v : ArtifactVersion.t) :
  (b, v) ∈ flat_map (fun b => map (fun v => (b, v)) (joined_heads b db))
             (List.filter
                (fun b => String.eqb (ArtifactBranch.artifactId b) a)
                (artifactBranch db))
  <-> (b ∈ artifactBranch db) /\ ArtifactBranch.artifactId b = a
      /\ (v ∈ artifactVersion db)
      /\ ArtifactVersion.id v = ArtifactBranch.headVersionId b.
Proof.
  rewrite list_elem_of_In, in_flat_map. unfold joined_heads. split.
  - intros (b' & Hb' & Hin). apply in_map_iff in Hin as (v' & [= <- <-] & Hv).
    apply filter_In in Hb' as [Hb Ha]. apply filter_In in Hv as [Hv Hid].
    apply String.eqb_eq in Ha, Hid. apply list_elem_of_In in Hb, Hv. done.
  - intros (Hb & Ha & Hv & Hid). apply list_elem_of_In in Hb, Hv.
    exists b. split.
    + apply filter_In. split; [done | by apply String.eqb_eq].
    + apply in_map_iff. exists v. split; [done|].
      apply filter_In. split; [done | by apply String.eqb_eq].
Qed.

(** X29: [getArtifactBranches] returns, without writing, the branches of the
    artifact, each with the version its [headVersionId] names, the branch
    updated last first.  The head is looked up by id alone: it is paired
    with the branch whichever artifact it is a version of. *)
Theorem getArtifactBranches_sorted (a : string) (db : Db) :
  exists rows : list (ArtifactBranch.t * ArtifactVersion.t),
    getArtifactBranches a db = (Returns rows, db)
    /\ StronglySorted updated_desc rows
    /\ forall (b : ArtifactBranch.t) (v : ArtifactVersion.t),
         (b, v) ∈ rows
         <-> (b ∈ artifactBranch db) /\ ArtifactBranch.artifactId b = a
             /\ (v ∈ artifactVersion db)
             /\ ArtifactVersion.id v = ArtifactBranch.headVersionId b.
Proof.
  eexists. split; [reflexivity|]. split.
  - apply StronglySorted_merge_sort; apply _.
  - intros b v. rewrite merge_sort_Permutation.
    apply getArtifactBranches_rows.
Qed.

(** X30: after a call of [createArtifactBranch] that returned,
    [getArtifactBranches] of the artifact lists the new branch, not a
    default one and under what a [varchar(100)] keeps of the given name
    (the name itself when it has at most 100 characters), with a version
    that has the given id as its head; the call itself did not ask that
    this version be one of the artifact. *)
Theorem getArtifactBranches_after_create (env : Env)
    (a name fromVersionId : string) (db db' : Db) (r : unit) :
  createArtifactBranch env a name fromVersionId db = (Returns r, db') ->
  exists (rows : list (ArtifactBranch.t * ArtifactVersion.t))
         (head : ArtifactVersion.t) (stored : string),
    getArtifactBranches a db' = (Returns rows, db')
    /\ varchar 100 name = Some stored
    /\ (String.length name <= 100 -> stored = name)
    /\ (ArtifactBranch.mk (branchUuid env) a stored fromVersionId false
                          (defaultNow env) (defaultNow env), head) ∈ rows
    /\ (head ∈ artifactVersion db)
    /\ ArtifactVersion.id head = fromVersionId.
Proof.
  unfold createArtifactBranch, try_catch, db_insert.
  destruct (insert_artifactBranch _ db) as [db2|] eqn:Hins; [|done].
  intros [= _ <-]. pose proof Hins as Hrow.
  apply insert_artifactBranch_Some in Hrow as (stored & Hstored & Hrow).
  cbn [ArtifactBranch.name ArtifactBranch.id ArtifactBranch.artifactId
       ArtifactBranch.headVersionId ArtifactBranch.isDefault
       ArtifactBranch.createdAt ArtifactBranch.updatedAt] in Hstored, Hrow.
  unfold insert_artifactBranch in Hins.
  cbn [ArtifactBranch.name ArtifactBranch.headVersionId] in Hins.
  rewrite Hstored in Hins.
  destruct (mem fromVersionId (map ArtifactVersion.id (artifactVersion db)))
    eqn:Hhead.
  2: { rewrite andb_false_r in Hins. done. }
  apply mem_true, list_elem_of_In, in_map_iff in Hhead
    as (head & Hid & Hin).
  apply list_elem_of_In in Hin.
  eexists _, head, stored. split; [reflexivity|]. split; [done|]. split.
  { intros Hlen. rewrite (varchar_short _ _ Hlen) in Hstored.
    by injection Hstored as <-. }
  split; [|done].
  rewrite merge_sort_Permutation. apply getArtifactBranches_rows.
  subst db2. cbn [artifactBranch artifactVersion ArtifactBranch.artifactId
                  ArtifactBranch.headVersionId].
  repeat split; try done.
  apply elem_of_app. right. by apply list_elem_of_singleton.
Qed.

End BranchReads.

(** ** The further properties on the example database *)

Lemma third_call_returns :
  createArtifactVersion Scenario.plain (Scenario.env_at 3000 "3") "doc"
    "Notes" "C" (Some "third") "alice" None Scenario.two_versions_db
  = (Returns MoreScenario.third_version, MoreScenario.three_versions_db).
Proof. vm_compute. reflexivity. Qed.

Lemma createArtifactVersion_throws_witness :
  exists (e : Exception) (db' : Db),
    createArtifactVersion Scenario.plain (Scenario.env_at 3000 "3") "doc"
      "Notes" "C" None "mallory" None Scenario.two_versions_db
    = (Throws e, db')
    /\ e = SDKError (mkChatSDKError "bad_request:database"
                                    "Failed to create artifact version").
Proof.
  eexists _, _. split; [vm_compute; reflexivity|].
  exact (proj1 (createArtifactVersion_throws Scenario.plain
                  (Scenario.env_at 3000 "3") "doc" "Notes" "C" None "mallory"
                  None Scenario.two_versions_db _ _ eq_refl)).
Defined.

Lemma createArtifactVersion_logs_update_witness :
  length (artifactChangeLog MoreScenario.three_versions_db)
  = S (length (artifactChangeLog Scenario.two_versions_db)).
Proof.
  rewrite (createArtifactVersion_logs_update Scenario.plain _ _ _ _ _ _ _ _ _
             _ third_call_returns).
  rewrite length_app. simpl. lia.
Defined.

Lemma createArtifactVersion_projects_witness :
  document MoreScenario.three_versions_db = [Document.mk "doc" "Notes" "C"].
Proof.
  rewrite (proj1 (createArtifactVersion_projects Scenario.plain _ _ _ _ _ _ _
                    _ _ _ third_call_returns)).
  reflexivity.
Defined.

Lemma no_version_9 (v : ArtifactVersion.t) :
  v ∈ artifactVersion Scenario.two_versions_db ->
  ArtifactVersion.id v = "version-9" ->
  ArtifactVersion.artifactId v <> "doc".
Proof.
  unfold Scenario.two_versions_db. cbn [artifactVersion]. intros Hv Hid.
  repeat (apply elem_of_cons in Hv as [->|Hv]; [discriminate Hid|]).
  by apply elem_of_nil in Hv.
Qed.

Lemma restoreArtifactVersion_unknown_witness :
  snd (restoreArtifactVersion Scenario.plain (Scenario.env_at 3000 "3") "doc"
         "version-9" "alice" Scenario.two_versions_db)
  = Scenario.two_versions_db.
Proof.
  by rewrite (restoreArtifactVersion_unknown Scenario.plain
                (Scenario.env_at 3000 "3") "doc" "version-9" "alice"
                Scenario.two_versions_db no_version_9).
Defined.

Lemma restoreArtifactVersion_logs_update_witness :
  exists (v : ArtifactVersion.t) (db' : Db),
    restoreArtifactVersion Scenario.plain (Scenario.env_at 3000 "3") "doc"
      "version-1" "alice" Scenario.two_versions_db = (Returns v, db')
    /\ length (artifactChangeLog db') = 3.
Proof.
  destruct (restoreArtifactVersion Scenario.plain (Scenario.env_at 3000 "3")
              "doc" "version-1" "alice" Scenario.two_versions_db)
    as [[v|e] db'] eqn:Hcall; [|vm_compute in Hcall; discriminate Hcall].
  exists v, db'. split; [reflexivity|].
  destruct (restoreArtifactVersion_logs_update Scenario.plain _ _ _ _ _ _ _
              Hcall) as (t & _ & _ & _ & ->).
  rewrite length_app. reflexivity.
Defined.

Lemma two_versions_one_active : at_most_one_active Scenario.two_versions_db.
Proof.
  intros a. unfold active_versions, versions_of, Scenario.two_versions_db.
  cbn [artifactVersion List.filter ArtifactVersion.artifactId].
  destruct (String.eqb "doc" a); cbn; lia.
Qed.

Lemma at_most_one_active_kept_witness :
  at_most_one_active MoreScenario.three_versions_db.
Proof.
  exact (proj1 (at_most_one_active_kept Scenario.plain
                  Scenario.two_versions_db two_versions_one_active)
           (Scenario.env_at 3000 "3") "doc" "Notes" "C" (Some "third")
           "alice" None).
Defined.

Lemma two_versions_distinct : numbers_distinct Scenario.two_versions_db.
Proof.
  intros a. unfold versions_of, Scenario.two_versions_db.
  cbn [artifactVersion List.filter ArtifactVersion.artifactId].
  destruct (String.eqb "doc" a); cbn; [|apply NoDup_nil_2].
  apply NoDup_cons. split; [|apply NoDup_singleton].
  intros H. apply list_elem_of_singleton in H. discriminate H.
Qed.

Lemma numbers_distinct_kept_witness :
  numbers_distinct MoreScenario.three_versions_db.
Proof.
  exact (proj1 (numbers_distinct_kept Scenario.plain
                  Scenario.two_versions_db two_versions_distinct)
           (Scenario.env_at 3000 "3") "doc" "Notes" "C" (Some "third")
           "alice" None).
Defined.

Lemma getArtifactVersionById_after_create_witness :
  getArtifactVersionById "version-3" MoreScenario.three_versions_db
  = (Returns (Some MoreScenario.third_version),
     MoreScenario.three_versions_db).
Proof.
  exact (getArtifactVersionById_after_create Scenario.plain _ _ _ _ _ _ _ _ _
           _ third_call_returns).
Defined.

Lemma getArtifactVersionHistory_after_create_witness :
  exists rest : list (ArtifactVersion.t * Author),
    getArtifactVersionHistory MoreScenario.email_of "doc"
                              MoreScenario.three_versions_db
    = (Returns ((MoreScenario.third_version,
                 mkAuthor "alice" "alice@example.org") :: rest),
       MoreScenario.three_versions_db)
    /\ length rest = 2.
Proof.
  destruct (getArtifactVersionHistory_after_create Scenario.plain
              MoreScenario.email_of _ _ _ _ _ _ _ _ _ _
              (NoDup_singleton "alice" : NoDup (user Scenario.two_versions_db))
              third_call_returns)
    as (rest & Hhistory & _).
  exists rest. split; [exact Hhistory|].
  vm_compute in Hhistory. by injection Hhistory as <-.
Defined.

Lemma getArtifactWithCurrentVersion_after_create_witness :
  getArtifactWithCurrentVersion MoreScenario.email_of "doc"
                                MoreScenario.three_versions_db
  = (Returns (Some (mkArtifactWithVersion
                      (Document.mk "doc" "Notes" "C")
                      (Some MoreScenario.third_version)
                      (Some (mkAuthor "alice" "alice@example.org")))),
     MoreScenario.three_versions_db).
Proof.
  exact (getArtifactWithCurrentVersion_after_create Scenario.plain
           MoreScenario.email_of _ _ _ _ _ _ _ _ _ _ third_call_returns).
Defined.

Lemma getArtifactBranches_after_create_witness :
  exists (rows : list (ArtifactBranch.t * ArtifactVersion.t))
         (head : ArtifactVersion.t) (db' : Db),
    createArtifactBranch (Scenario.env_at 3000 "3") "other" "main" "version-1"
                         MoreScenario.two_artifacts_db = (Returns tt, db')
    /\ getArtifactBranches "other" db' = (Returns rows, db')
    /\ (ArtifactBranch.mk "branch-3" "other" "main" "version-1" false 3000
                          3000, head) ∈ rows
    /\ ArtifactVersion.artifactId head = "doc".
Proof.
  destruct (createArtifactBranch (Scenario.env_at 3000 "3") "other" "main"
              "version-1" MoreScenario.two_artifacts_db)
    as [[[]|e] db'] eqn:Hcall; [|vm_compute in Hcall; discriminate Hcall].
  destruct (getArtifactBranches_after_create _ _ _ _ _ _ _ Hcall)
    as (rows & head & stored & Hrows & _ & Hname & Hin & Hhead & Hid).
  rewrite Hname in Hin by (vm_compute; lia).
  exists rows, head, db'. repeat (split; [done|]).
  unfold MoreScenario.two_artifacts_db, Scenario.two_versions_db in Hhead.
  cbn [artifactVersion] in Hhead.
  repeat (apply elem_of_cons in Hhead as [->|Hhead]; [done|]).
  by apply elem_of_nil in Hhead.
Defined.
